(** * Order-flow chart: aggregation, backfill and footprint rendering

    Shallow embedding of the order-flow pieces of the orderflow-charts
    repository:
    - [BybitConnector] (lib/bybitConnector): live trade aggregation
      ([processTrades], [updateBidAskData], [recalculateMetrics]) and the
      historical backfill ([fetchHistoricalData],
      [generateApproximateBidAsk]);
    - [MockDataGenerator.generateHistoricalData]: the CVD loop of the mock;
    - [FootprintChart]: [isImbalance] and the row bucketing done by
      [createFootprintOverlay.updateOverlay].

    JavaScript numbers are modelled as rationals [Q] (prices, volumes,
    ratios) and as [Z] (millisecond timestamps); [Math.round x] is
    [floor (x + 1/2)], as JavaScript specifies it. *)

From Stdlib Require Import QArith Qabs Qround Qminmax ZArith List String Lia Lqa Morphisms Permutation.
Import ListNotations.

Open Scope Q_scope.

(** ** Numeric primitives *)

(** Strict comparison of numbers. *)
Definition Qlt_bool (x y : Q) : bool := negb (Qle_bool y x).

(** [Math.round]: the nearest integer, halves rounded towards +infinity. *)
Definition js_round (x : Q) : Q := inject_Z (Qfloor (x + (1 # 2))).

(** [Math.ceil (a / b)]. *)
Definition js_ceil (x : Q) : Z := Qceiling x.

(** [Number(x.toFixed(1))]: the one-decimal number nearest to [x], ties
    away from zero (toFixed works on the magnitude and prefixes the sign). *)
Definition js_toFixed1 (x : Q) : Q :=
  if Qle_bool 0 x then inject_Z (Qfloor (x * 10 + (1 # 2))) / 10
  else - (inject_Z (Qfloor (- x * 10 + (1 # 2))) / 10).

(** A number with no fractional part. *)
Definition is_int (x : Q) : Prop := exists z : Z, x == inject_Z z.

(** ** Data model (lib/types.ts) *)

(** [BidAskLevel]. *)
Record BidAskLevel := mkLevel {
  price : Q;
  bidVol : Q;
  askVol : Q
}.

(** [OrderFlowCandle]. [timestamp] is the ISO string of a millisecond
    time in the source, kept here as that time. [cvd] is optional in the
    type, and every read of it is [cvd || 0]; all candles the connector
    builds set it, so it is a number here. *)
Record OrderFlowCandle := mkCandle {
  timestamp : Z;
  open : Q;
  high : Q;
  low : Q;
  close : Q;
  bidAskData : list BidAskLevel;
  delta : Q;
  volume : Q;
  cvd : Q
}.

(** [BybitTrade], the fields the aggregator reads: [T] (time), [S]
    (side), [v] (size, parsed with parseFloat) and [p] (price, parsed). *)
Record BybitTrade := mkTrade {
  trade_T : Z;
  trade_S : string;
  trade_v : Q;
  trade_p : Q
}.

(** ** Footprint helpers (components/FootprintChart.tsx) *)

Inductive Imbalance := ImbBid | ImbAsk.

(** [isImbalance]: [null] is [None]. *)
Definition isImbalance (bidVol askVol : Q) : option Imbalance :=
  if Qle_bool (askVol * 3) bidVol then Some ImbBid
  else if Qle_bool (bidVol * 3) askVol then Some ImbAsk
  else None.

(** ** Live aggregation (BybitConnector, first class of lib/bybitConnector) *)

(** One side of a trade added to a level: ['Buy'] goes to the bid, any
    other side to the ask. *)
Definition add_side (side : string) (vol : Q) (l : BidAskLevel) : BidAskLevel :=
  if String.eqb side "Buy" then mkLevel (price l) (bidVol l + vol) (askVol l)
  else mkLevel (price l) (bidVol l) (askVol l + vol).

(** [updateBidAskData]: the first level whose price is [===] the rounded
    price is updated in place; when there is none, a fresh level is pushed
    at the end of the array and then updated. *)
Fixpoint updateBidAskData (p vol : Q) (side : string)
    (levels : list BidAskLevel) : list BidAskLevel :=
  match levels with
  | [] => [add_side side vol (mkLevel p 0 0)]
  | l :: rest =>
      if Qeq_bool (price l) p then add_side side vol l :: rest
      else l :: updateBidAskData p vol side rest
  end.

(** The two [reduce] calls of [recalculateMetrics] (and of the backfill). *)
Definition sum_delta (levels : list BidAskLevel) : Q :=
  fold_left (fun s l => s + (bidVol l - askVol l)) levels 0.

Definition sum_volume (levels : list BidAskLevel) : Q :=
  fold_left (fun s l => s + bidVol l + askVol l) levels 0.

(** [recalculateMetrics]. *)
Definition recalculateMetrics (c : OrderFlowCandle) : OrderFlowCandle :=
  let d := sum_delta (bidAskData c) in
  let vol := sum_volume (bidAskData c) in
  let previousCvd := cvd c - delta c in
  mkCandle (timestamp c) (open c) (high c) (low c) (close c) (bidAskData c)
    (js_round d) (js_round vol) (js_round (previousCvd + d)).

(** The body of [if (this.currentCandle) { ... }] in [processTrades]:
    OHLC update, level update at the price rounded to 0.5, metrics. *)
Definition apply_trade (c : OrderFlowCandle) (t : BybitTrade) : OrderFlowCandle :=
  let p := trade_p t in
  let roundedPrice := js_round (p * 2) / 2 in
  recalculateMetrics
    (mkCandle (timestamp c) (open c) (Qmax (high c) p) (Qmin (low c) p) p
       (updateBidAskData roundedPrice (trade_v t) (trade_S t) (bidAskData c))
       (delta c) (volume c) (cvd c)).

(** The private fields of the connector that [processTrades] reads and
    writes. *)
Record Connector := mkConnector {
  candleStartTime : Z;
  currentCandle : option OrderFlowCandle
}.

(** Calls of [onCandleUpdate]: the candle object itself when it is
    finalised at a rollover, a copy after every trade. *)
Inductive Emit :=
  | Closed (c : OrderFlowCandle)
  | Update (c : OrderFlowCandle).

(** [Math.floor(tradeTime / timeframeMs) * timeframeMs]. *)
Definition bucketStart (timeframeMs tradeTime : Z) : Z :=
  (tradeTime / timeframeMs * timeframeMs)%Z.

(** The candle opened at a rollover. *)
Definition new_candle (start : Z) (p : Q) (prev : option OrderFlowCandle)
  : OrderFlowCandle :=
  mkCandle start p p p p [] 0 0
    (match prev with Some c => cvd c | None => 0 end).

(** One iteration of [trades.forEach] in [processTrades]. *)
Definition processTrade (timeframeMs : Z) (st : Connector) (t : BybitTrade)
  : Connector * list Emit :=
  let ccs := bucketStart timeframeMs (trade_T t) in
  let '(st1, ev1) :=
    if Z.ltb (candleStartTime st) ccs then
      (mkConnector ccs (Some (new_candle ccs (trade_p t) (currentCandle st))),
       match currentCandle st with Some c => [Closed c] | None => [] end)
    else (st, []) in
  match currentCandle st1 with
  | Some c =>
      let c' := apply_trade c t in
      (mkConnector (candleStartTime st1) (Some c'), ev1 ++ [Update c'])
  | None => (st1, ev1)
  end.

(** [processTrades]. *)
Fixpoint processTrades (timeframeMs : Z) (st : Connector) (ts : list BybitTrade)
  : Connector * list Emit :=
  match ts with
  | [] => (st, [])
  | t :: rest =>
      let '(st1, ev1) := processTrade timeframeMs st t in
      let '(st2, ev2) := processTrades timeframeMs st1 rest in
      (st2, ev1 ++ ev2)
  end.

(** The candles a run produces: those finalised at rollovers, in order,
    followed by the candle still open. *)
Fixpoint closed_of (ev : list Emit) : list OrderFlowCandle :=
  match ev with
  | [] => []
  | Closed c :: rest => c :: closed_of rest
  | Update _ :: rest => closed_of rest
  end.

Definition produced (st : Connector) (ev : list Emit) : list OrderFlowCandle :=
  closed_of ev ++ match currentCandle st with Some c => [c] | None => [] end.

(** The 15-minute timeframe of the examples. *)
Definition ms15m : Z := 900000.

(** ** Historical backfill (BybitConnector.fetchHistoricalData) *)

(** A kline row [timestamp, open, high, low, close, volume], parsed,
    oldest first (after the [reverse] of the API list). *)
Record Kline := mkKline {
  k_start : Z;
  k_open : Q;
  k_high : Q;
  k_low : Q;
  k_close : Q;
  k_volume : Q
}.

(** [$0.5] increments of the first connector. *)
Definition priceStep : Q := 1 # 2.

(** [range > 0 ? (price - low) / range : 0.5]. *)
Definition pricePosition (range low p : Q) : Q :=
  if Qlt_bool 0 range then (p - low) / range else 1 # 2.

(** [bidRatio] of [generateApproximateBidAsk]. *)
Definition bidRatio (isBullish : bool) (pos : Q) : Q :=
  if isBullish then (2 # 5) + (1 - pos) * (2 # 5)
  else (1 # 5) + (1 - pos) * (2 # 5).

(** The loop [for (let i = 0; i <= numLevels; i++)] with its [break];
    [rnd i] is the value [Math.random()] returns in iteration [i]. *)
Fixpoint approx_levels (rnd : nat -> Q) (low high range volumePerLevel : Q)
    (isBullish : bool) (i fuel : nat) : list BidAskLevel :=
  match fuel with
  | O => []
  | S f =>
      let p := js_toFixed1 (low + inject_Z (Z.of_nat i) * priceStep) in
      if Qlt_bool high p then []
      else
        let r := bidRatio isBullish (pricePosition range low p) in
        let randomFactor := (4 # 5) + rnd i * (2 # 5) in
        let bv := js_round (volumePerLevel * r * randomFactor) in
        let av := js_round (volumePerLevel * (1 - r) * randomFactor) in
        mkLevel p (Qmax bv 1) (Qmax av 1)
          :: approx_levels rnd low high range volumePerLevel isBullish (S i) f
  end.

(** [generateApproximateBidAsk] (first connector). *)
Definition numLevels (high low : Q) : Z :=
  Z.max (js_ceil ((high - low) / priceStep)) 1.

Definition generateApproximateBidAsk (rnd : nat -> Q)
    (open high low close volume : Q) : list BidAskLevel :=
  let range := high - low in
  let n := numLevels high low in
  let volumePerLevel := volume / inject_Z n in
  approx_levels rnd low high range volumePerLevel (Qlt_bool open close)
    0 (S (Z.to_nat n)).

(** The loop of [fetchHistoricalData]; [rnd k] are the random draws made
    while the [k]-th kline is processed. *)
Fixpoint backfill (rnd : nat -> nat -> Q) (k : nat) (cumulativeDelta : Q)
    (klines : list Kline) : list OrderFlowCandle :=
  match klines with
  | [] => []
  | kl :: rest =>
      let levels := generateApproximateBidAsk (rnd k) (k_open kl) (k_high kl)
                      (k_low kl) (k_close kl) (k_volume kl) in
      let d := sum_delta levels in
      let totalVolume := sum_volume levels in
      let cum := cumulativeDelta + d in
      mkCandle (k_start kl) (k_open kl) (k_high kl) (k_low kl) (k_close kl)
        levels (js_round d) (js_round totalVolume) (js_round cum)
        :: backfill rnd (S k) cum rest
  end.

Definition fetchHistoricalData (rnd : nat -> nat -> Q) (klines : list Kline)
  : list OrderFlowCandle :=
  backfill rnd 0 0 klines.

(** ** Mock data (MockDataGenerator.generateHistoricalData) *)

Definition with_cvd (c : OrderFlowCandle) (x : Q) : OrderFlowCandle :=
  mkCandle (timestamp c) (open c) (high c) (low c) (close c) (bidAskData c)
    (delta c) (volume c) x.

(** The CVD part of the loop: [cumulativeDelta += candle.delta;
    candle.cvd = cumulativeDelta], over the candles [generateCandle]
    returns (random, so taken as input). *)
Fixpoint mock_cvd (cumulativeDelta : Q) (cs : list OrderFlowCandle)
  : list OrderFlowCandle :=
  match cs with
  | [] => []
  | c :: rest =>
      let cum := cumulativeDelta + delta c in
      with_cvd c cum :: mock_cvd cum rest
  end.

(** ** Footprint rows (createFootprintOverlay.updateOverlay) *)

Definition sum_bid (ls : list BidAskLevel) : Q :=
  fold_left (fun s l => s + bidVol l) ls 0.

Definition sum_ask (ls : list BidAskLevel) : Q :=
  fold_left (fun s l => s + askVol l) ls 0.

(** One aggregated row: summed volumes, price of [bucket[middleIndex]]. *)
Definition aggregate_bucket (bucket : list BidAskLevel) : BidAskLevel :=
  mkLevel (price (nth (Nat.div (List.length bucket) 2) bucket (mkLevel 0 0 0)))
    (sum_bid bucket) (sum_ask bucket).

(** [for (let i = 0; i < sortedLevels.length; i += bucketSize)] with
    [bucket = sortedLevels.slice(i, i + bucketSize)]. *)
Fixpoint group_levels (bucketSize fuel : nat) (ls : list BidAskLevel)
  : list BidAskLevel :=
  match fuel with
  | O => []
  | S f =>
      match ls with
      | [] => []
      | _ :: _ =>
          aggregate_bucket (firstn bucketSize ls)
            :: group_levels bucketSize f (skipn bucketSize ls)
      end
  end.

(** The aggregation step: [levelsToShow] from [sortedLevels] and
    [maxLevels]. *)
Definition bucketLevels (sortedLevels : list BidAskLevel) (maxLevels : Z)
  : list BidAskLevel :=
  let n := Z.of_nat (List.length sortedLevels) in
  if (Z.ltb maxLevels n && Z.ltb 0 maxLevels)%bool then
    let bucketSize := Z.to_nat (js_ceil (inject_Z n / inject_Z maxLevels)) in
    group_levels bucketSize (List.length sortedLevels) sortedLevels
  else sortedLevels.

(** [.filter(level => level.price >= candle.low && level.price <= candle.high)]. *)
Definition in_candle_range (c : OrderFlowCandle) (l : BidAskLevel) : bool :=
  (Qle_bool (low c) (price l) && Qle_bool (price l) (high c))%bool.

(** [.sort((a, b) => b.price - a.price)], a stable sort: insertion after
    the levels of equal price already placed. *)
Fixpoint insert_desc (l : BidAskLevel) (ls : list BidAskLevel) : list BidAskLevel :=
  match ls with
  | [] => [l]
  | x :: rest =>
      if Qlt_bool (price x) (price l) then l :: x :: rest
      else x :: insert_desc l rest
  end.

Definition sort_desc (ls : list BidAskLevel) : list BidAskLevel :=
  fold_left (fun acc l => insert_desc l acc) ls [].

(** The rows drawn for a candle, [maxLevels] being
    [Math.floor(fullCandleHeight / rowHeight)]. *)
Definition levelsToShow (c : OrderFlowCandle) (maxLevels : Z) : list BidAskLevel :=
  bucketLevels (sort_desc (filter (in_candle_range c) (bidAskData c))) maxLevels.

(** ** Concrete inputs used by the examples below *)

(** A fresh connector whose [candleStartTime] is the epoch. *)
Definition ex_start : Connector := mkConnector 0 None.

(** Two whole-size trades in the bucket [[900000, 1800000)]. *)
Definition ex_int_trades : list BybitTrade :=
  [mkTrade 900000 "Buy" 2 100; mkTrade 900001 "Sell" 3 101].

(** One trade of size 0.4. *)
Definition ex_frac_trades : list BybitTrade :=
  [mkTrade 900000 "Buy" (2 # 5) 100].

(** The candle open in a connector (a placeholder when there is none). *)
Definition open_candle_of (st : Connector) : OrderFlowCandle :=
  match currentCandle st with Some c => c | None => new_candle 0 0 None end.

(** A connector whose open candle started at 1800000, and a trade whose
    bucket (0) is earlier. *)
Definition ex_late_candle : OrderFlowCandle := new_candle 1800000 100 None.

Definition ex_late_state : Connector := mkConnector 1800000 (Some ex_late_candle).

Definition ex_late_trade : BybitTrade := mkTrade 0 "Buy" 1 5.

(** Trades at [t, t + 1, t + 15m] for [t = 0] and [t = 900000]. *)
Definition ex_roll_trades (t : Z) : list BybitTrade :=
  [mkTrade t "Buy" 1 100; mkTrade (t + 1) "Sell" 2 101;
   mkTrade (t + ms15m) "Buy" 3 102].

(** Trades at prices 100, 101 and 99 in one bucket. *)
Definition ex_unsorted_trades : list BybitTrade :=
  [mkTrade 900000 "Buy" 1 100; mkTrade 900001 "Sell" 1 101;
   mkTrade 900002 "Buy" 1 99].

(** ** Predicates on price lists *)

(** No two prices are equal. *)
Fixpoint distinctQ (ps : list Q) : Prop :=
  match ps with
  | [] => True
  | q :: rest => (forall q', In q' rest -> ~ q' == q) /\ distinctQ rest
  end.

Fixpoint sorted_asc (ps : list Q) : bool :=
  match ps with
  | a :: ((b :: _) as rest) => Qle_bool a b && sorted_asc rest
  | _ => true
  end.

Fixpoint sorted_desc (ps : list Q) : bool :=
  match ps with
  | a :: ((b :: _) as rest) => Qle_bool b a && sorted_desc rest
  | _ => true
  end.

(** The levels of the open candle, if any, have distinct prices. *)
Definition open_levels_distinct (st : Connector) : Prop :=
  match currentCandle st with
  | Some c => distinctQ (map price (bidAskData c))
  | None => True
  end.

(** ** CVD continuity *)

(** [chain_from prev cs]: each candle's cvd is the previous one's plus its
    own delta, the first one's previous cvd being [prev]. *)
Fixpoint chain_from (prev : Q) (cs : list OrderFlowCandle) : Prop :=
  match cs with
  | [] => True
  | c :: rest => cvd c == prev + delta c /\ chain_from (cvd c) rest
  end.

(** [candles[i].cvd == candles[i-1].cvd + candles[i].delta] for [i > 0]. *)
Definition cvd_chain (cs : list OrderFlowCandle) : Prop :=
  match cs with
  | [] => True
  | c :: rest => chain_from (cvd c) rest
  end.

(** The cvd of the last candle of [cs], or [prev] when there is none. *)
Definition last_cvd (prev : Q) (cs : list OrderFlowCandle) : Q :=
  fold_left (fun _ c => cvd c) cs prev.

(** What the aggregator keeps about cvd: the open candle's cvd is its
    predecessor's plus its delta, all whole numbers; with no open candle
    the next one starts from 0. *)
Definition live_inv (prev : Q) (st : Connector) : Prop :=
  is_int prev /\
  match currentCandle st with
  | None => prev == 0
  | Some c => is_int (cvd c) /\ is_int (delta c) /\ cvd c == prev + delta c
  end.

(** A last backfilled candle handed to [subscribeRealtime]. *)
Definition ex_last_candle : OrderFlowCandle := mkCandle 0 100 101 99 100 [] 3 7 12.

(** ** The bucketer as the spec words it *)

(** Contiguous groups of [b] levels: the [j]-th is
    [levels[j*b .. j*b + b)], for [j < ceil(N / b)]. *)
Definition spec_groups (b : nat) (ls : list BidAskLevel) : list (list BidAskLevel) :=
  map (fun j => firstn b (skipn (j * b) ls))
    (seq 0 (Nat.div (List.length ls + b - 1) b)).

(** [len(levels) <= maxRows]: the levels verbatim; otherwise one row per
    group of [ceil(len(levels) / maxRows)] levels. *)
Definition spec_bucketer (ls : list BidAskLevel) (maxRows : Z) : list BidAskLevel :=
  let n := Z.of_nat (List.length ls) in
  if Z.leb n maxRows then ls
  else map aggregate_bucket
         (spec_groups (Z.to_nat (js_ceil (inject_Z n / inject_Z maxRows))) ls).

(** Two levels, sorted descending, and a candle holding one level. *)
Definition ex_two_levels : list BidAskLevel := [mkLevel 2 1 1; mkLevel 1 2 2].

Definition ex_fp_candle : OrderFlowCandle :=
  mkCandle 0 100 101 99 100 [mkLevel 100 5 3] 2 8 2.

(** A bullish bar: open 100, high 100.75, low 100, close 100.75,
    volume 100, every [Math.random()] returning 0. *)
Definition ex_bar_levels : list BidAskLevel :=
  generateApproximateBidAsk (fun _ => 0) 100 (403 # 4) 100 (403 # 4) 100.

(** ** Stable insertion sort ([Array.prototype.sort] with a comparator) *)

Section InsertionSort.
Context {A : Type} (ltb : A -> A -> bool).

(** [ltb a b] is [compare(a, b) < 0]: [a] goes before [b]. An element is
    placed after those it does not strictly precede, so equal elements
    keep their order, as in the stable sort of JavaScript. *)
Fixpoint insert_by (x : A) (xs : list A) : list A :=
  match xs with
  | [] => [x]
  | y :: ys => if ltb x y then x :: y :: ys else y :: insert_by x ys
  end.

Definition sort_by (xs : list A) : list A :=
  fold_left (fun acc x => insert_by x acc) xs [].

(** No element is strictly preceded by the one after it. *)
Fixpoint sorted_by (xs : list A) : bool :=
  match xs with
  | a :: ((b :: _) as rest) => negb (ltb b a) && sorted_by rest
  | _ => true
  end.

End InsertionSort.

(** Strictly increasing integers. *)
Fixpoint increasing (zs : list Z) : bool :=
  match zs with
  | a :: ((b :: _) as rest) => Z.ltb a b && increasing rest
  | _ => true
  end.

(** ** Facts about the live aggregator *)

(** The bar of a candle is consistent: [low <= open, close <= high]. *)
Definition ohlc_ok (c : OrderFlowCandle) : Prop :=
  low c <= open c /\ open c <= high c /\ low c <= close c /\ close c <= high c.

Definition open_ohlc_ok (st : Connector) : Prop :=
  match currentCandle st with Some c => ohlc_ok c | None => True end.

(** The open candle is stamped with the connector's [candleStartTime]. *)
Definition open_ts_ok (st : Connector) : Prop :=
  match currentCandle st with
  | Some c => timestamp c = candleStartTime st
  | None => True
  end.

(** No negative volume at any level. *)
Definition levels_nonneg (ls : list BidAskLevel) : Prop :=
  Forall (fun l => 0 <= bidVol l /\ 0 <= askVol l) ls.

Definition open_levels_nonneg (st : Connector) : Prop :=
  match currentCandle st with
  | Some c => levels_nonneg (bidAskData c)
  | None => True
  end.

(** The candles passed to [onCandleUpdate] after each trade. *)
Fixpoint updates_of (ev : list Emit) : list OrderFlowCandle :=
  match ev with
  | [] => []
  | Update c :: rest => c :: updates_of rest
  | Closed _ :: rest => updates_of rest
  end.

(** Total size of a list of trades, and its signed sum (['Buy'] positive,
    any other side negative). *)
Definition trades_volume (ts : list BybitTrade) : Q :=
  fold_left (fun s t => s + trade_v t) ts 0.

Definition trades_delta (ts : list BybitTrade) : Q :=
  fold_left (fun s t => s + (if String.eqb (trade_S t) "Buy" then trade_v t
                             else - trade_v t)) ts 0.

(** ** Statistics panel (components/FootprintBarStatistics) *)

(** [relativeStrength] of a column:
    [candle.volume > 0 ? (candle.delta / candle.volume) * 100 : 0]. *)
Definition relativeStrength (c : OrderFlowCandle) : Q :=
  if Qlt_bool 0 (volume c) then delta c / volume c * 100 else 0.

(** The colour [rgba(r, g, b, a)] of a cell; the alpha is the number the
    template string prints. *)
Record RGBA := mkRGBA {
  red : Z;
  green : Z;
  blue : Z;
  alpha : Q
}.

(** [getColorForDelta]. *)
Definition getColorForDelta (value : Q) : RGBA :=
  if Qlt_bool 0 value then
    let intensity := Qmin (Qabs value / 50000) 1 in
    mkRGBA 34 197 94 ((3 # 10) + intensity * (1 # 2))
  else if Qlt_bool value 0 then
    let intensity := Qmin (Qabs value / 50000) 1 in
    mkRGBA 239 68 68 ((3 # 10) + intensity * (1 # 2))
  else mkRGBA 100 100 100 (1 # 5).

(** ** The page's candle merge (app/page.tsx, [onCandleUpdate] callback) *)




(** ** Chart series data (FootprintChart, the data effect) *)

(** A point of the candlestick series: [{time, open, high, low, close}]. *)
Record ChartBar := mkBar {
  bar_time : Z;
  bar_open : Q;
  bar_high : Q;
  bar_low : Q;
  bar_close : Q
}.

(** [Math.floor(new Date(candle.timestamp).getTime() / 1000)]. *)
Definition candleTime (c : OrderFlowCandle) : Z := (timestamp c / 1000)%Z.

Definition toBar (c : OrderFlowCandle) : ChartBar :=
  mkBar (candleTime c) (open c) (high c) (low c) (close c).

(** [Map.prototype.set] on a map kept in insertion order: an existing key
    keeps its place and gets the new value, a new key goes last. *)
Fixpoint map_set (k : Z) (v : ChartBar) (m : list (Z * ChartBar))
  : list (Z * ChartBar) :=
  match m with
  | [] => [(k, v)]
  | (k', v') :: rest =>
      if Z.eqb k k' then (k, v) :: rest else (k', v') :: map_set k v rest
  end.

(** [data.forEach(... timeMap.set(time, ...))], then
    [Array.from(timeMap.values()).sort((a, b) => a.time - b.time)]. *)
Definition chartData (data : list OrderFlowCandle) : list ChartBar :=
  sort_by (fun a b => Z.ltb (bar_time a) (bar_time b))
    (map snd (fold_left (fun m c => map_set (candleTime c) (toBar c) m) data [])).

(** The last candle of [data] whose time is [t], if any. *)
Definition last_with (t : Z) (data : list OrderFlowCandle) : option OrderFlowCandle :=
  fold_left (fun acc c => if Z.eqb (candleTime c) t then Some c else acc) data None.

(** ** Mock data generator (MockDataGenerator) *)

(** [Timeframe] of lib/types.ts. *)
Inductive Timeframe := TF5m | TF15m | TF30m | TF1h | TF4h | TF12h | TF1d | TF1w | TF1M.

(** [MockDataGenerator.getTimeframeMs]. *)
Definition mock_getTimeframeMs (tf : Timeframe) : Z :=
  match tf with
  | TF5m => 5 * 60 * 1000
  | TF15m => 15 * 60 * 1000
  | TF30m => 30 * 60 * 1000
  | TF1h => 60 * 60 * 1000
  | TF4h => 4 * 60 * 60 * 1000
  | TF12h => 12 * 60 * 60 * 1000
  | TF1d => 24 * 60 * 60 * 1000
  | TF1w => 7 * 24 * 60 * 60 * 1000
  | TF1M => 30 * 24 * 60 * 60 * 1000
  end%Z.

(** [this.basePrice] and [this.priceStep]. *)
Definition mock_basePrice : Q := 105000.

Definition mock_priceStep : Q := 10.

(** Successive calls of [Math.random()] read [rnd n], [rnd (n + 1)], ...;
    the functions below return the index of the next unread draw. *)

(** The [bidVol], [askVol] branch of [generateBidAskLevels], given
    [baseVol], [imbalanceRand] and the two draws made in the branch. *)
Definition mock_vols (baseVol imbalanceRand r1 r2 : Q) : Q * Q :=
  if Qlt_bool (7 # 10) imbalanceRand then
    (baseVol * (2 + r1 * 2), baseVol * ((3 # 10) + r2 * (2 # 5)))
  else if Qlt_bool imbalanceRand (3 # 10) then
    (baseVol * ((3 # 10) + r1 * (2 # 5)), baseVol * (2 + r2 * 2))
  else
    (baseVol * ((4 # 5) + r1 * (2 # 5)), baseVol * ((4 # 5) + r2 * (2 # 5))).

(** The loop [for (let i = 0; i <= priceRange; i++)] with its [break]. *)
Fixpoint mock_levels (rnd : nat -> Q) (low high : Q) (i n fuel : nat)
  : list BidAskLevel * nat :=
  match fuel with
  | O => ([], n)
  | S f =>
      let p := low + inject_Z (Z.of_nat i) * mock_priceStep in
      if Qlt_bool high p then ([], n)
      else
        let baseVol := inject_Z (Qfloor (rnd n * 5000)) + 500 in
        let '(bv, av) := mock_vols baseVol (rnd (S n)) (rnd (S (S n))) (rnd (S (S (S n)))) in
        let '(rest, n') := mock_levels rnd low high (S i) (S (S (S (S n)))) f in
        (mkLevel (js_round p) (js_round bv) (js_round av) :: rest, n')
  end.

(** [generateBidAskLevels]: the levels sorted by [a.price - b.price]. *)
Definition generateBidAskLevels (rnd : nat -> Q) (n : nat) (open high low close : Q)
  : list BidAskLevel * nat :=
  let priceRange := js_ceil ((high - low) / mock_priceStep) in
  let '(levels, n') := mock_levels rnd low high 0 n (Z.to_nat (priceRange + 1)) in
  (sort_by (fun a b => Qlt_bool (price a) (price b)) levels, n').

(** [generateCandle]; the candle has no [cvd] yet, and [cvd || 0] reads 0. *)
Definition generateCandle (rnd : nat -> Q) (n : nat) (ts : Z) (prevClose : Q)
  : OrderFlowCandle * nat :=
  let change := (rnd n - (1 # 2)) * 1000 in
  let o := prevClose in
  let cl := o + change in
  let volatility := 200 + rnd (S n) * 300 in
  let hi := Qmax o cl + volatility in
  let lo := Qmin o cl - volatility in
  let '(levels, n') := generateBidAskLevels rnd (S (S n)) o hi lo cl in
  (mkCandle ts (js_round o) (js_round hi) (js_round lo) (js_round cl) levels
     (js_round (sum_delta levels)) (js_round (sum_volume levels)) 0, n').

(** The loop [for (let i = barsCount - 1; i >= 0; i--)] of
    [generateHistoricalData], [k] iterations left ([i = k - 1]). *)
Fixpoint mock_history (rnd : nat -> Q) (now intervalMs : Z) (k n : nat)
    (currentPrice cumulativeDelta : Q) : list OrderFlowCandle :=
  match k with
  | O => []
  | S i =>
      let ts := (now - Z.of_nat i * intervalMs)%Z in
      let '(candle, n') := generateCandle rnd n ts currentPrice in
      let cum := cumulativeDelta + delta candle in
      with_cvd candle cum :: mock_history rnd now intervalMs i n' (close candle) cum
  end.

(** [generateHistoricalData(timeframe, barsCount)] at time [now]. *)
Definition generateHistoricalData (rnd : nat -> Q) (now : Z) (tf : Timeframe)
    (barsCount : nat) : list OrderFlowCandle :=
  mock_history rnd now (mock_getTimeframeMs tf) barsCount 0 mock_basePrice 0.

(** Each candle opens at the close of the one before, the first at
    [prev]. *)
Fixpoint opens_follow (prev : Q) (cs : list OrderFlowCandle) : Prop :=
  match cs with
  | [] => True
  | c :: rest => open c == prev /\ opens_follow (close c) rest
  end.

(** * Properties *)

(** ** Rounding and integers *)

Lemma Qfloor_plus_Z (a : Z) (y : Q) : Qfloor (inject_Z a + y) = (a + Qfloor y)%Z.
Proof.
  destruct y as [n d]. unfold Qplus, inject_Z, Qfloor. simpl.
  rewrite Z.mul_1_r.
  rewrite (Z.add_comm (a * Z.pos d)), Z.div_add by lia. lia.
Qed.

Lemma js_round_compat (x y : Q) : x == y -> js_round x == js_round y.
Proof.
  intro H. unfold js_round. rewrite (Qfloor_comp (x + (1 # 2)) (y + (1 # 2))).
  - reflexivity.
  - rewrite H. reflexivity.
Qed.

#[global] Instance js_round_Proper : Proper (Qeq ==> Qeq) js_round.
Proof. intros x y H. apply js_round_compat; exact H. Qed.

Lemma js_round_shift (a : Z) (x : Q) :
  js_round (inject_Z a + x) == inject_Z a + js_round x.
Proof.
  unfold js_round.
  rewrite (Qfloor_comp _ (inject_Z a + (x + (1 # 2)))) by ring.
  rewrite Qfloor_plus_Z, inject_Z_plus. reflexivity.
Qed.

Lemma js_round_Z (a : Z) : js_round (inject_Z a) == inject_Z a.
Proof.
  rewrite <- (Qplus_0_r (inject_Z a)) at 1.
  rewrite js_round_shift.
  setoid_replace (js_round 0) with 0 by reflexivity. ring.
Qed.

Lemma js_round_is_int (x : Q) : is_int (js_round x).
Proof. exists (Qfloor (x + (1 # 2))). reflexivity. Qed.

Lemma js_round_int (x : Q) : is_int x -> js_round x == x.
Proof.
  intros [z Hz]. rewrite (js_round_compat _ _ Hz), Hz. apply js_round_Z.
Qed.

Lemma js_round_plus_int (x y : Q) : is_int x -> js_round (x + y) == x + js_round y.
Proof.
  intros [z Hz]. rewrite (js_round_compat (x + y) (inject_Z z + y)).
  - rewrite js_round_shift, Hz. reflexivity.
  - rewrite Hz. reflexivity.
Qed.

Lemma is_int_compat (x y : Q) : x == y -> is_int x -> is_int y.
Proof. intros H [z Hz]. exists z. rewrite <- H. exact Hz. Qed.

Lemma is_int_Z (z : Z) : is_int (inject_Z z).
Proof. exists z. reflexivity. Qed.

Lemma is_int_plus (x y : Q) : is_int x -> is_int y -> is_int (x + y).
Proof.
  intros [a Ha] [b Hb]. exists (a + b)%Z. rewrite Ha, Hb, inject_Z_plus. reflexivity.
Qed.

Lemma is_int_opp (x : Q) : is_int x -> is_int (- x).
Proof.
  intros [a Ha]. exists (- a)%Z. rewrite Ha, inject_Z_opp. reflexivity.
Qed.

Lemma is_int_minus (x y : Q) : is_int x -> is_int y -> is_int (x - y).
Proof. intros Hx Hy. apply is_int_plus; [exact Hx | apply is_int_opp; exact Hy]. Qed.

Lemma is_int_max (x y : Q) : is_int x -> is_int y -> is_int (Qmax x y).
Proof.
  intros Hx Hy. destruct (Q.max_spec x y) as [[_ H] | [_ H]];
    eapply is_int_compat; [symmetry; exact H | exact Hy | symmetry; exact H | exact Hx].
Qed.

Lemma is_int_0 : is_int 0.
Proof. exists 0%Z. reflexivity. Qed.

Lemma is_int_1 : is_int 1.
Proof. exists 1%Z. reflexivity. Qed.

(** ** Sums over levels *)

Definition levels_int (ls : list BidAskLevel) : Prop :=
  forall l, In l ls -> is_int (bidVol l) /\ is_int (askVol l).

Lemma sum_delta_cons (l : BidAskLevel) (ls : list BidAskLevel) :
  sum_delta (l :: ls) == (bidVol l - askVol l) + sum_delta ls.
Proof.
  unfold sum_delta. simpl.
  assert (Hs : forall xs s,
    fold_left (fun s l => s + (bidVol l - askVol l)) xs s
    == s + fold_left (fun s l => s + (bidVol l - askVol l)) xs 0).
  { induction xs as [|x xs IH]; intro s; simpl; [ring|].
    rewrite (IH (s + _)), (IH (0 + _)). ring. }
  rewrite Hs. ring.
Qed.

Lemma sum_volume_cons (l : BidAskLevel) (ls : list BidAskLevel) :
  sum_volume (l :: ls) == (bidVol l + askVol l) + sum_volume ls.
Proof.
  unfold sum_volume. simpl.
  assert (Hs : forall xs s,
    fold_left (fun s l => s + bidVol l + askVol l) xs s
    == s + fold_left (fun s l => s + bidVol l + askVol l) xs 0).
  { induction xs as [|x xs IH]; intro s; simpl; [ring|].
    rewrite (IH (s + _ + _)), (IH (0 + _ + _)). ring. }
  rewrite Hs. ring.
Qed.

Lemma sum_delta_int (ls : list BidAskLevel) : levels_int ls -> is_int (sum_delta ls).
Proof.
  induction ls as [|l ls IH]; intro H.
  - exact is_int_0.
  - eapply is_int_compat; [symmetry; apply sum_delta_cons|].
    destruct (H l (or_introl eq_refl)) as [Hb Ha].
    apply is_int_plus; [apply is_int_minus; assumption|].
    apply IH. intros x Hx. apply H. right. exact Hx.
Qed.

Lemma sum_volume_int (ls : list BidAskLevel) : levels_int ls -> is_int (sum_volume ls).
Proof.
  induction ls as [|l ls IH]; intro H.
  - exact is_int_0.
  - eapply is_int_compat; [symmetry; apply sum_volume_cons|].
    destruct (H l (or_introl eq_refl)) as [Hb Ha].
    apply is_int_plus; [apply is_int_plus; assumption|].
    apply IH. intros x Hx. apply H. right. exact Hx.
Qed.

(** ** The aggregator step *)

(** After a step, an open candle is always the result of folding the
    trade into some candle. *)
Lemma processTrade_current (tf : Z) (st st' : Connector) (t : BybitTrade)
    (ev : list Emit) (c : OrderFlowCandle) :
  processTrade tf st t = (st', ev) -> currentCandle st' = Some c ->
  exists c0, c = apply_trade c0 t.
Proof.
  unfold processTrade.
  destruct (Z.ltb (candleStartTime st) (bucketStart tf (trade_T t))).
  - simpl. intros H Hc. inversion H; subst. simpl in Hc. inversion Hc. eauto.
  - destruct (currentCandle st) as [c1|] eqn:E.
    + intros H Hc. inversion H; subst. simpl in Hc. inversion Hc. eauto.
    + intros H Hc. inversion H; subst. congruence.
Qed.

Lemma processTrades_current (tf : Z) (st st' : Connector) (ts : list BybitTrade)
    (ev : list Emit) (c : OrderFlowCandle) :
  ts <> [] -> processTrades tf st ts = (st', ev) -> currentCandle st' = Some c ->
  exists c0 t, c = apply_trade c0 t.
Proof.
  revert st ev. induction ts as [|t ts IH]; intros st ev Hne H Hc; [congruence|].
  simpl in H. destruct (processTrade tf st t) as [st1 ev1] eqn:E1.
  destruct (processTrades tf st1 ts) as [st2 ev2] eqn:E2. inversion H; subst.
  destruct ts as [|t' ts'].
  - simpl in E2. inversion E2; subst.
    destruct (processTrade_current _ _ _ _ _ _ E1 Hc) as [c0 ->]. eauto.
  - eapply IH; [discriminate | exact E2 | exact Hc].
Qed.

(** ** C1: delta and volume of the open candle *)

(** C1 (amended): after every trade of a sequence, the open candle's
    [delta] and [volume] are [Math.round] of the sums over its levels of
    [bidVol - askVol] and [bidVol + askVol], recomputed from the levels; so
    they equal these sums exactly when all level volumes are whole
    numbers. *)
Theorem processTrades_metrics_recomputed (tf : Z) (st st' : Connector)
    (ts : list BybitTrade) (ev : list Emit) (c : OrderFlowCandle) :
  ts <> [] -> processTrades tf st ts = (st', ev) -> currentCandle st' = Some c ->
  delta c = js_round (sum_delta (bidAskData c)) /\
  volume c = js_round (sum_volume (bidAskData c)) /\
  (levels_int (bidAskData c) ->
   delta c == sum_delta (bidAskData c) /\ volume c == sum_volume (bidAskData c)).
Proof.
  intros Hne H Hc.
  destruct (processTrades_current _ _ _ _ _ _ Hne H Hc) as [c0 [t ->]].
  unfold apply_trade, recalculateMetrics. simpl.
  split; [reflexivity|]. split; [reflexivity|].
  intro Hi. split; apply js_round_int.
  - apply sum_delta_int. exact Hi.
  - apply sum_volume_int. exact Hi.
Qed.

Lemma processTrades_metrics_recomputed_witness :
  let c := open_candle_of (fst (processTrades ms15m ex_start ex_int_trades)) in
  delta c = js_round (sum_delta (bidAskData c)) /\
  volume c = js_round (sum_volume (bidAskData c)) /\
  (levels_int (bidAskData c) ->
   delta c == sum_delta (bidAskData c) /\ volume c == sum_volume (bidAskData c)).
Proof.
  apply (processTrades_metrics_recomputed ms15m ex_start
           (fst (processTrades ms15m ex_start ex_int_trades))
           ex_int_trades (snd (processTrades ms15m ex_start ex_int_trades))).
  - discriminate.
  - vm_compute. reflexivity.
  - vm_compute. reflexivity.
Defined.

(** C1 fails as stated: one trade of size 0.4 leaves a level with
    [bidVol = 0.4] while the candle's volume is [Math.round(0.4) = 0]. *)
Lemma processTrades_volume_not_level_sum :
  match currentCandle (fst (processTrades ms15m ex_start ex_frac_trades)) with
  | Some c => ~ (volume c == sum_volume (bidAskData c))
  | None => False
  end.
Proof. vm_compute. intro H. discriminate H. Qed.

(** ** C8, C10: imbalance classification *)

(** C8: [isImbalance] is [bid] exactly when [bidVol >= askVol * 3] (tested
    first), [ask] exactly when that fails and [askVol >= bidVol * 3], and
    none otherwise; with the four values of the spec. *)
Theorem isImbalance_classification (b a : Q) :
  (isImbalance b a = Some ImbBid <-> a * 3 <= b) /\
  (isImbalance b a = Some ImbAsk <-> ~ (a * 3 <= b) /\ b * 3 <= a) /\
  (isImbalance b a = None <-> ~ (a * 3 <= b) /\ ~ (b * 3 <= a)) /\
  isImbalance 30 10 = Some ImbBid /\ isImbalance 10 30 = Some ImbAsk /\
  isImbalance 10 10 = None /\ isImbalance 29 10 = None.
Proof.
  unfold isImbalance.
  assert (R : forall x y, Qle_bool x y = true <-> x <= y) by apply Qle_bool_iff.
  assert (F : forall x y, Qle_bool x y = false <-> ~ x <= y).
  { intros x y. rewrite <- R. destruct (Qle_bool x y); split; congruence. }
  destruct (Qle_bool (a * 3) b) eqn:E1; destruct (Qle_bool (b * 3) a) eqn:E2;
    [apply R in E1; apply R in E2 | apply R in E1; apply F in E2
    | apply F in E1; apply R in E2 | apply F in E1; apply F in E2];
    (split; [split; intro; first [tauto | discriminate | reflexivity] |]);
    (split; [split; intro; first [tauto | discriminate | reflexivity | (destruct H; tauto)] |]);
    (split; [split; intro; first [tauto | discriminate | reflexivity | (destruct H; tauto)] |]);
    repeat split.
Qed.

(** C10: a level with no volume on either side is a bid imbalance. *)
Theorem isImbalance_zero_zero : isImbalance 0 0 = Some ImbBid.
Proof. reflexivity. Qed.

(** ** C3: trades of an earlier bucket *)

(** C3 (amended): a trade whose bucket is not later than [candleStartTime]
    (in particular an earlier one) is not dropped when a candle is open:
    it is folded into that candle (OHLC, level, delta, volume and cvd
    recomputed), [candleStartTime] is kept and no candle is finalised.
    Only when no candle is open is such a trade dropped, with nothing
    emitted. *)
Theorem processTrade_not_later (tf : Z) (st : Connector) (t : BybitTrade) :
  (bucketStart tf (trade_T t) <= candleStartTime st)%Z ->
  processTrade tf st t =
    match currentCandle st with
    | Some c =>
        (mkConnector (candleStartTime st) (Some (apply_trade c t)),
         [Update (apply_trade c t)])
    | None => (st, [])
    end.
Proof.
  intro H. unfold processTrade.
  replace (Z.ltb (candleStartTime st) (bucketStart tf (trade_T t))) with false
    by (symmetry; apply Z.ltb_ge; exact H).
  destruct (currentCandle st); reflexivity.
Qed.

Lemma processTrade_not_later_witness :
  processTrade ms15m ex_late_state ex_late_trade =
    (mkConnector 1800000 (Some (apply_trade ex_late_candle ex_late_trade)),
     [Update (apply_trade ex_late_candle ex_late_trade)]).
Proof.
  apply (processTrade_not_later ms15m ex_late_state ex_late_trade).
  vm_compute. discriminate.
Defined.

(** C3 fails as stated: a trade of bucket 0 reaching a candle opened at
    1800000 changes that candle (its close becomes the trade's price). *)
Lemma late_trade_changes_open_candle :
  (bucketStart ms15m (trade_T ex_late_trade) < candleStartTime ex_late_state)%Z /\
  currentCandle (fst (processTrade ms15m ex_late_state ex_late_trade))
    <> Some ex_late_candle.
Proof. split; vm_compute; [reflexivity | discriminate]. Qed.

(** ** C4: rollover *)

Lemma bucketStart_add_tf (tf t : Z) :
  (0 < tf)%Z -> bucketStart tf (t + tf) = (bucketStart tf t + tf)%Z.
Proof.
  intro H. unfold bucketStart.
  replace (t + tf)%Z with (t + 1 * tf)%Z by ring.
  rewrite Z.div_add by lia. ring.
Qed.

Lemma div_succ_cases (tf t : Z) :
  (0 < tf)%Z -> ((t + 1) / tf = t / tf \/ (t + 1) / tf = t / tf + 1)%Z.
Proof.
  intro H.
  pose proof (Z.div_mod t tf ltac:(lia)) as Et.
  pose proof (Z.mod_pos_bound t tf H) as Bt.
  destruct (Z.eq_dec (t mod tf) (tf - 1)) as [E|E].
  - right. replace (t + 1)%Z with ((t / tf + 1) * tf)%Z by nia.
    rewrite Z.div_mul by lia. reflexivity.
  - left. symmetry. apply Z.div_unique with (t mod tf + 1)%Z; nia.
Qed.

(** A trade of a later bucket rolls the candle over. *)
Lemma processTrade_later (tf : Z) (st : Connector) (t : BybitTrade) :
  (candleStartTime st < bucketStart tf (trade_T t))%Z ->
  processTrade tf st t =
    (mkConnector (bucketStart tf (trade_T t))
       (Some (apply_trade (new_candle (bucketStart tf (trade_T t)) (trade_p t)
                             (currentCandle st)) t)),
     match currentCandle st with Some c0 => [Closed c0] | None => [] end
       ++ [Update (apply_trade (new_candle (bucketStart tf (trade_T t)) (trade_p t)
                                  (currentCandle st)) t)]).
Proof.
  intro H. unfold processTrade.
  replace (Z.ltb (candleStartTime st) (bucketStart tf (trade_T t))) with true
    by (symmetry; apply Z.ltb_lt; exact H).
  reflexivity.
Qed.


(** C4 (amended): when a trade's bucket is later than [candleStartTime],
    the open candle (if any) is finalised and emitted, and a candle with
    open = high = low = close = trade price, no levels, delta = volume = 0
    and the previous cvd is opened at the bucket, then the trade is folded
    into it. When no candle is open and the bucket is not later than
    [candleStartTime], the trade is dropped and no candle is created.
    Starting with no open candle and [candleStartTime] before the bucket
    of [t], trades at [t, t + 1, t + timeframeMs] produce exactly two
    candles, the first at the bucket of [t] and the second opened at the
    price of the trade that rolled it over ([t + 1] when it starts a new
    bucket, [t + timeframeMs] otherwise). *)
Theorem processTrade_rollover (tf cst : Z) (st : Connector)
    (t t1 t2 t3 : BybitTrade) :
  ((candleStartTime st < bucketStart tf (trade_T t))%Z ->
   let b := bucketStart tf (trade_T t) in
   let c := new_candle b (trade_p t) (currentCandle st) in
   open c = trade_p t /\ high c = trade_p t /\ low c = trade_p t /\
   close c = trade_p t /\ bidAskData c = [] /\ delta c = 0 /\ volume c = 0 /\
   processTrade tf st t =
     (mkConnector b (Some (apply_trade c t)),
      match currentCandle st with Some c0 => [Closed c0] | None => [] end
        ++ [Update (apply_trade c t)])) /\
  (currentCandle st = None ->
   (bucketStart tf (trade_T t) <= candleStartTime st)%Z ->
   processTrade tf st t = (st, [])) /\
  ((0 < tf)%Z -> (cst < bucketStart tf (trade_T t1))%Z ->
   trade_T t2 = (trade_T t1 + 1)%Z -> trade_T t3 = (trade_T t1 + tf)%Z ->
   let '(st', ev) := processTrades tf (mkConnector cst None) [t1; t2; t3] in
   match produced st' ev with
   | [c1; c2] =>
       timestamp c1 = bucketStart tf (trade_T t1) /\
       open c2 = (if Z.ltb (bucketStart tf (trade_T t1)) (bucketStart tf (trade_T t2))
                  then trade_p t2 else trade_p t3)
   | _ => False
   end).
Proof.
  split; [|split].
  - intros H. simpl. repeat split. apply processTrade_later. exact H.
  - intros Hn H. rewrite (processTrade_not_later tf st t H), Hn. reflexivity.
  - intros Htf H1 E2 E3.
    assert (B3 : bucketStart tf (trade_T t3) = (bucketStart tf (trade_T t1) + tf)%Z).
    { rewrite E3. apply bucketStart_add_tf. exact Htf. }
    simpl processTrades.
    rewrite (processTrade_later tf (mkConnector cst None) t1 H1). cbn [currentCandle candleStartTime app].
    destruct (div_succ_cases tf (trade_T t1) Htf) as [D|D].
    + assert (B2 : bucketStart tf (trade_T t2) = bucketStart tf (trade_T t1)).
      { unfold bucketStart. rewrite E2, D. reflexivity. }
      rewrite processTrade_not_later by (simpl; lia). cbn [currentCandle candleStartTime app].
      rewrite processTrade_later by (simpl; lia). cbn [currentCandle candleStartTime app].
      unfold produced. simpl. split; [reflexivity|].
      rewrite B2, Z.ltb_irrefl. reflexivity.
    + assert (B2 : bucketStart tf (trade_T t2) = (bucketStart tf (trade_T t1) + tf)%Z).
      { unfold bucketStart. rewrite E2, D. ring. }
      rewrite processTrade_later by (simpl; lia). cbn [currentCandle candleStartTime app].
      rewrite processTrade_not_later by (simpl; lia). cbn [currentCandle candleStartTime app].
      unfold produced. simpl. split; [reflexivity|].
      rewrite B2. replace (Z.ltb (bucketStart tf (trade_T t1))
                             (bucketStart tf (trade_T t1) + tf)) with true
        by (symmetry; apply Z.ltb_lt; lia). reflexivity.
Qed.

Lemma processTrade_rollover_witness :
  let '(st', ev) := processTrades ms15m ex_start (ex_roll_trades 900000) in
  match produced st' ev with
  | [c1; c2] => timestamp c1 = 900000%Z /\ open c2 = 102
  | _ => False
  end.
Proof.
  destruct (processTrade_rollover ms15m 0 ex_start ex_late_trade
              (mkTrade 900000 "Buy" 1 100) (mkTrade 900001 "Sell" 2 101)
              (mkTrade 1800000 "Buy" 3 102)) as [_ [_ H]].
  exact (H eq_refl eq_refl eq_refl eq_refl).
Defined.

(** C4 fails as stated: with no open candle, a trade whose bucket is not
    later than [candleStartTime] creates no candle; trades at [0, 1,
    900000] from a fresh connector started at the epoch produce one
    candle, not two. *)
Lemma no_candle_without_later_bucket :
  processTrade ms15m ex_start (mkTrade 0 "Buy" 1 100) = (ex_start, []) /\
  (let '(st', ev) := processTrades ms15m ex_start (ex_roll_trades 0) in
   List.length (produced st' ev)) = 1%nat.
Proof. split; vm_compute; reflexivity. Qed.

(** ** C9: the levels of the open candle *)

Lemma updateBidAskData_prices (p vol : Q) (side : string) (ls : list BidAskLevel) :
  map price (updateBidAskData p vol side ls) =
  map price ls ++
    (if existsb (fun q => Qeq_bool q p) (map price ls) then [] else [p]).
Proof.
  induction ls as [|l ls IH]; simpl.
  - unfold add_side. destruct (String.eqb side "Buy"); reflexivity.
  - destruct (Qeq_bool (price l) p) eqn:E; simpl.
    + unfold add_side. destruct (String.eqb side "Buy"); rewrite app_nil_r; reflexivity.
    + rewrite IH. reflexivity.
Qed.

Lemma distinctQ_snoc (ps : list Q) (p : Q) :
  distinctQ ps -> existsb (fun q => Qeq_bool q p) ps = false -> distinctQ (ps ++ [p]).
Proof.
  induction ps as [|q ps IH]; simpl; intros Hd Hex.
  - split; [intros q' []|exact I].
  - apply Bool.orb_false_iff in Hex as [Hq Hex]. destruct Hd as [Hn Hd].
    split; [|apply IH; assumption].
    intros q' Hin Heq. apply in_app_or in Hin as [Hin | [Hp | []]].
    + exact (Hn q' Hin Heq).
    + subst q'. assert (Qeq_bool q p = true) as X
        by (apply Qeq_bool_iff; symmetry; exact Heq). congruence.
Qed.

Lemma updateBidAskData_distinct (p vol : Q) (side : string) (ls : list BidAskLevel) :
  distinctQ (map price ls) -> distinctQ (map price (updateBidAskData p vol side ls)).
Proof.
  intro H. rewrite updateBidAskData_prices.
  destruct (existsb (fun q => Qeq_bool q p) (map price ls)) eqn:E.
  - rewrite app_nil_r. exact H.
  - apply distinctQ_snoc; assumption.
Qed.

Lemma processTrade_distinct (tf : Z) (st : Connector) (t : BybitTrade) :
  open_levels_distinct st -> open_levels_distinct (fst (processTrade tf st t)).
Proof.
  unfold open_levels_distinct, processTrade.
  destruct (Z.ltb (candleStartTime st) (bucketStart tf (trade_T t))); simpl.
  - intros _. exact (updateBidAskData_distinct _ _ _ [] I).
  - destruct (currentCandle st) as [c|] eqn:E; simpl.
    + intro H. exact (updateBidAskData_distinct _ _ _ _ H).
    + intros _. rewrite E. exact I.
Qed.

(** C9 (amended): within the open candle each price appears at most once
    (when the candle starts that way, as every rollover candle does), and
    the levels keep the order in which their prices were first traded: a
    trade at an existing price updates that level in place, a trade at a
    new price appends its level at the end. The levels are not kept
    ordered by price. *)
Theorem levels_unique_in_insertion_order :
  (forall (p vol : Q) (side : string) (ls : list BidAskLevel),
     map price (updateBidAskData p vol side ls) =
     map price ls ++
       (if existsb (fun q => Qeq_bool q p) (map price ls) then [] else [p])) /\
  (forall (tf : Z) (st : Connector) (ts : list BybitTrade),
     open_levels_distinct st ->
     open_levels_distinct (fst (processTrades tf st ts))).
Proof.
  split; [exact updateBidAskData_prices|].
  intros tf st ts. revert st. induction ts as [|t ts IH]; intros st H; simpl; [exact H|].
  destruct (processTrade tf st t) as [st1 ev1] eqn:E1.
  destruct (processTrades tf st1 ts) as [st2 ev2] eqn:E2. simpl.
  pose proof (processTrade_distinct tf st t H) as H1. rewrite E1 in H1.
  specialize (IH st1 H1). rewrite E2 in IH. exact IH.
Qed.

Lemma levels_unique_in_insertion_order_witness :
  open_levels_distinct (fst (processTrades ms15m ex_start ex_unsorted_trades)).
Proof.
  apply (proj2 levels_unique_in_insertion_order ms15m ex_start ex_unsorted_trades).
  exact I.
Defined.

(** C9 fails as stated: trades at 100, 101, 99 leave the levels in that
    order, which is neither ascending nor descending by price. *)
Lemma levels_not_ordered_by_price :
  let ps := map price (bidAskData
              (open_candle_of (fst (processTrades ms15m ex_start ex_unsorted_trades)))) in
  sorted_asc ps = false /\ sorted_desc ps = false.
Proof. split; vm_compute; reflexivity. Qed.

(** ** C2: CVD continuity *)

Lemma chain_from_app (prev : Q) (a b : list OrderFlowCandle) :
  chain_from prev (a ++ b) <-> chain_from prev a /\ chain_from (last_cvd prev a) b.
Proof.
  revert prev. induction a as [|c a IH]; intro prev; simpl.
  - tauto.
  - unfold last_cvd in *. simpl. rewrite IH. tauto.
Qed.

Lemma chain_from_compat (p p' : Q) (cs : list OrderFlowCandle) :
  p == p' -> chain_from p cs -> chain_from p' cs.
Proof.
  destruct cs as [|c cs]; simpl; [tauto|].
  intros E [H1 H2]. split; [rewrite <- E; exact H1 | exact H2].
Qed.

Lemma closed_of_app (a b : list Emit) : closed_of (a ++ b) = closed_of a ++ closed_of b.
Proof. induction a as [|[c|c] a IH]; simpl; rewrite ?IH; reflexivity. Qed.

Lemma apply_trade_cvd (c : OrderFlowCandle) (t : BybitTrade) :
  is_int (cvd c - delta c) ->
  is_int (cvd (apply_trade c t)) /\ is_int (delta (apply_trade c t)) /\
  cvd (apply_trade c t) == (cvd c - delta c) + delta (apply_trade c t).
Proof.
  intro H. unfold apply_trade, recalculateMetrics. simpl.
  split; [apply js_round_is_int|]. split; [apply js_round_is_int|].
  apply js_round_plus_int. exact H.
Qed.

Lemma processTrade_live_inv (tf : Z) (prev : Q) (st : Connector) (t : BybitTrade) :
  live_inv prev st ->
  let '(st', ev) := processTrade tf st t in
  chain_from prev (closed_of ev) /\ live_inv (last_cvd prev (closed_of ev)) st'.
Proof.
  intros [Hp Hc]. unfold processTrade.
  destruct (Z.ltb (candleStartTime st) (bucketStart tf (trade_T t))).
  - destruct (currentCandle st) as [c|] eqn:E; simpl.
    + destruct Hc as [Hcv [Hd Heq]].
      destruct (apply_trade_cvd (new_candle (bucketStart tf (trade_T t)) (trade_p t) (Some c)) t)
        as [I1 [I2 I3]].
      { simpl. apply is_int_minus; [exact Hcv | exact is_int_0]. }
      split; [split; [exact Heq | exact I]|].
      unfold last_cvd. simpl. split; [exact Hcv|]. split; [exact I1|]. split; [exact I2|].
      rewrite I3. simpl. ring.
    + destruct (apply_trade_cvd (new_candle (bucketStart tf (trade_T t)) (trade_p t) None) t)
        as [I1 [I2 I3]].
      { simpl. exact (is_int_minus _ _ is_int_0 is_int_0). }
      split; [exact I|].
      unfold last_cvd. simpl. split; [exact Hp|]. split; [exact I1|]. split; [exact I2|].
      rewrite I3, Hc. simpl. ring.
  - destruct (currentCandle st) as [c|] eqn:E; simpl.
    + destruct Hc as [Hcv [Hd Heq]].
      destruct (apply_trade_cvd c t) as [I1 [I2 I3]].
      { apply is_int_minus; assumption. }
      split; [exact I|].
      unfold last_cvd. simpl. split; [exact Hp|]. split; [exact I1|]. split; [exact I2|].
      rewrite I3, Heq. ring.
    + split; [exact I|]. unfold last_cvd. simpl. split; [exact Hp|]. rewrite E. exact Hc.
Qed.

Lemma processTrades_live_inv (tf : Z) (ts : list BybitTrade) :
  forall (prev : Q) (st : Connector), live_inv prev st ->
  let '(st', ev) := processTrades tf st ts in
  chain_from prev (closed_of ev) /\ live_inv (last_cvd prev (closed_of ev)) st'.
Proof.
  induction ts as [|t ts IH]; intros prev st H; simpl.
  - split; [exact I | exact H].
  - pose proof (processTrade_live_inv tf prev st t H) as H1.
    destruct (processTrade tf st t) as [st1 ev1].
    destruct H1 as [C1 L1].
    pose proof (IH _ st1 L1) as H2.
    destruct (processTrades tf st1 ts) as [st2 ev2].
    destruct H2 as [C2 L2].
    rewrite closed_of_app, chain_from_app. split; [split; assumption|].
    unfold last_cvd in *. rewrite fold_left_app. exact L2.
Qed.

Lemma produced_chain (tf : Z) (prev : Q) (st : Connector) (ts : list BybitTrade) :
  live_inv prev st ->
  let '(st', ev) := processTrades tf st ts in chain_from prev (produced st' ev).
Proof.
  intro H. pose proof (processTrades_live_inv tf ts prev st H) as H1.
  destruct (processTrades tf st ts) as [st' ev]. destruct H1 as [C [_ L]].
  unfold produced. apply chain_from_app. split; [exact C|].
  destruct (currentCandle st') as [c|]; simpl; [|exact I].
  destruct L as [_ [_ E]]. split; [exact E | exact I].
Qed.

Lemma approx_levels_int (rnd : nat -> Q) (low high range vpl : Q) (b : bool) :
  forall fuel i, levels_int (approx_levels rnd low high range vpl b i fuel).
Proof.
  induction fuel as [|f IH]; intros i l Hl; simpl in Hl; [destruct Hl|].
  destruct (Qlt_bool high _) in Hl; [destruct Hl|].
  destruct Hl as [<- | Hl]; [|exact (IH (S i) l Hl)].
  simpl. split; apply is_int_max; (apply js_round_is_int || exact is_int_1).
Qed.

Lemma backfill_chain (rnd : nat -> nat -> Q) (klines : list Kline) :
  forall k cum prev, is_int cum -> prev == cum ->
  chain_from prev (backfill rnd k cum klines).
Proof.
  induction klines as [|kl rest IH]; intros k cum prev Hc Hp; simpl; [exact I|].
  set (levels := generateApproximateBidAsk (rnd k) (k_open kl) (k_high kl)
                   (k_low kl) (k_close kl) (k_volume kl)).
  assert (Hl : levels_int levels) by apply approx_levels_int.
  pose proof (sum_delta_int levels Hl) as Hd.
  assert (Hcum : is_int (cum + sum_delta levels)) by (apply is_int_plus; assumption).
  split.
  - rewrite (js_round_int _ Hcum), (js_round_int _ Hd), Hp. reflexivity.
  - apply IH; [exact Hcum|]. apply js_round_int. exact Hcum.
Qed.

Lemma mock_chain (cs : list OrderFlowCandle) :
  forall cum prev, prev == cum -> chain_from prev (mock_cvd cum cs).
Proof.
  induction cs as [|c rest IH]; intros cum prev Hp; simpl; [exact I|].
  split; [rewrite Hp; reflexivity|]. apply IH. reflexivity.
Qed.

(** C2: CVD continuity. The candles of the historical backfill (whatever
    the random draws), the candles of the mock generator, and the candles
    the live aggregator produces from a connector with no open candle (the
    running sum seeded at 0) satisfy [candles[0].cvd == candles[0].delta]
    and [candles[i].cvd == candles[i-1].cvd + candles[i].delta] for
    [i > 0]. When the aggregator starts from a last candle whose cvd and
    delta are whole numbers (as those of the backfill are), the produced
    candles satisfy the relation for [i > 0]. *)
Theorem cvd_continuity :
  (forall (rnd : nat -> nat -> Q) (klines : list Kline),
     chain_from 0 (fetchHistoricalData rnd klines)) /\
  (forall cs : list OrderFlowCandle, chain_from 0 (mock_cvd 0 cs)) /\
  (forall (tf cst : Z) (ts : list BybitTrade),
     let '(st', ev) := processTrades tf (mkConnector cst None) ts in
     chain_from 0 (produced st' ev)) /\
  (forall (tf cst : Z) (c0 : OrderFlowCandle) (ts : list BybitTrade),
     is_int (cvd c0) -> is_int (delta c0) ->
     let '(st', ev) := processTrades tf (mkConnector cst (Some c0)) ts in
     cvd_chain (produced st' ev)).
Proof.
  split; [|split; [|split]].
  - intros rnd klines. apply backfill_chain; [exact is_int_0 | reflexivity].
  - intro cs. apply mock_chain. reflexivity.
  - intros tf cst ts. apply produced_chain.
    split; [exact is_int_0 | reflexivity].
  - intros tf cst c0 ts Hc Hd.
    pose proof (produced_chain tf (cvd c0 - delta c0) (mkConnector cst (Some c0)) ts)
      as H.
    destruct (processTrades tf (mkConnector cst (Some c0)) ts) as [st' ev].
    assert (C : chain_from (cvd c0 - delta c0) (produced st' ev)).
    { apply H. split; [apply is_int_minus; assumption|].
      simpl. split; [exact Hc|]. split; [exact Hd|]. ring. }
    destruct (produced st' ev) as [|c rest]; simpl in *; [exact I|].
    exact (proj2 C).
Qed.

Lemma cvd_continuity_witness :
  let '(st', ev) := processTrades ms15m (mkConnector 0%Z (Some ex_last_candle))
                      (ex_roll_trades 900000) in
  cvd_chain (produced st' ev).
Proof.
  apply (proj2 (proj2 (proj2 cvd_continuity)) ms15m 0%Z ex_last_candle
           (ex_roll_trades 900000)).
  - exists 12%Z. reflexivity.
  - exists 3%Z. reflexivity.
Defined.

(** ** C5, C6: footprint rows *)

Lemma fold_plus_shift (f : BidAskLevel -> Q) (ls : list BidAskLevel) (s : Q) :
  fold_left (fun s l => s + f l) ls s == s + fold_left (fun s l => s + f l) ls 0.
Proof.
  revert s. induction ls as [|l ls IH]; intro s; simpl; [ring|].
  rewrite (IH (s + f l)), (IH (0 + f l)). ring.
Qed.

Lemma fold_plus_app (f : BidAskLevel -> Q) (a b : list BidAskLevel) :
  fold_left (fun s l => s + f l) (a ++ b) 0
  == fold_left (fun s l => s + f l) a 0 + fold_left (fun s l => s + f l) b 0.
Proof. rewrite fold_left_app, fold_plus_shift. reflexivity. Qed.

Lemma group_levels_sum (f : BidAskLevel -> Q) (b : nat) :
  (forall bucket, f (aggregate_bucket bucket) = fold_left (fun s l => s + f l) bucket 0) ->
  forall fuel ls, (0 < b)%nat -> (List.length ls <= fuel)%nat ->
  fold_left (fun s l => s + f l) (group_levels b fuel ls) 0
  == fold_left (fun s l => s + f l) ls 0.
Proof.
  intros Hf. induction fuel as [|fu IH]; intros ls Hb Hl.
  - destruct ls; [reflexivity | simpl in Hl; lia].
  - destruct ls as [|l0 ls0]; [reflexivity|].
    cbn [group_levels].
    change (aggregate_bucket (firstn b (l0 :: ls0)) :: group_levels b fu (skipn b (l0 :: ls0)))
      with ([aggregate_bucket (firstn b (l0 :: ls0))] ++ group_levels b fu (skipn b (l0 :: ls0))).
    rewrite fold_plus_app, IH; [|exact Hb|].
    + cbn [fold_left]. rewrite Hf.
      transitivity (fold_left (fun s l => s + f l)
                      (firstn b (l0 :: ls0) ++ skipn b (l0 :: ls0)) 0).
      * rewrite fold_plus_app. ring.
      * rewrite firstn_skipn. reflexivity.
    + rewrite length_skipn. cbn [length] in Hl |- *. lia.
Qed.

Lemma ceil_div_step (len b : nat) :
  (0 < b)%nat -> (1 <= len)%nat ->
  Nat.div (len + b - 1) b = S (Nat.div (len - b + b - 1) b).
Proof.
  intros Hb Hl. destruct (Nat.le_gt_cases len b) as [H|H].
  - assert (E1 : Nat.div (len + b - 1) b = 1%nat)
      by (symmetry; apply Nat.div_unique with (len - 1)%nat; lia).
    assert (E0 : Nat.div (len - b + b - 1) b = 0%nat)
      by (symmetry; apply Nat.div_unique with (b - 1)%nat; lia).
    rewrite E1, E0. reflexivity.
  - replace (len + b - 1)%nat with ((len - b + b - 1) + 1 * b)%nat by lia.
    rewrite Nat.div_add by lia. lia.
Qed.

Lemma group_levels_spec (b : nat) :
  forall fuel ls, (0 < b)%nat -> (List.length ls <= fuel)%nat ->
  group_levels b fuel ls = map aggregate_bucket (spec_groups b ls).
Proof.
  induction fuel as [|fu IH]; intros ls Hb Hl.
  - destruct ls; [|simpl in Hl; lia].
    unfold spec_groups. simpl. rewrite Nat.div_small by lia. reflexivity.
  - destruct ls as [|l0 ls0].
    + unfold spec_groups. simpl. rewrite Nat.div_small by lia. reflexivity.
    + cbn [group_levels]. rewrite IH; [|exact Hb|rewrite length_skipn; cbn [length] in Hl |- *; lia].
      unfold spec_groups. rewrite length_skipn.
      rewrite (ceil_div_step (List.length (l0 :: ls0)) b Hb) by (simpl; lia).
      cbn [seq map]. rewrite Nat.mul_0_l, skipn_O. f_equal.
      rewrite <- seq_shift. repeat rewrite map_map. apply map_ext. intro j.
      rewrite skipn_skipn. f_equal. f_equal. f_equal. lia.
Qed.

Lemma bucket_size_pos (n m : Z) :
  (0 < m)%Z -> (m < n)%Z -> (0 < Z.to_nat (js_ceil (inject_Z n / inject_Z m)))%nat.
Proof.
  intros Hm Hn. unfold js_ceil.
  assert (Hx : 0 < inject_Z n / inject_Z m).
  { apply Qlt_shift_div_l.
    - change 0 with (inject_Z 0). rewrite <- Zlt_Qlt. exact Hm.
    - rewrite Qmult_0_l. change 0 with (inject_Z 0). rewrite <- Zlt_Qlt. lia. }
  pose proof (Qle_ceiling (inject_Z n / inject_Z m)) as Hc.
  assert (H0 : inject_Z 0 < inject_Z (Qceiling (inject_Z n / inject_Z m)))
    by (change (inject_Z 0) with 0; eapply Qlt_le_trans; [exact Hx | exact Hc]).
  rewrite <- Zlt_Qlt in H0. lia.
Qed.

(** C5 (amended): for every list of levels and every [maxRows > 0]: when
    [N <= maxRows] the rows are the levels verbatim; otherwise, with
    [bucketSize = ceil(N / maxRows)], they are the contiguous groups of
    [bucketSize] levels in order, each carrying the sums of its bid and
    ask volumes and the price of its element at index
    [floor(groupSize / 2)]; in both cases the total bid volume and the
    total ask volume of the rows equal those of the levels. When
    [maxRows <= 0] the levels are returned verbatim. *)
Theorem bucketLevels_groups (ls : list BidAskLevel) (maxRows : Z) :
  ((0 < maxRows)%Z ->
   bucketLevels ls maxRows = spec_bucketer ls maxRows /\
   sum_bid (bucketLevels ls maxRows) == sum_bid ls /\
   sum_ask (bucketLevels ls maxRows) == sum_ask ls) /\
  ((maxRows <= 0)%Z -> bucketLevels ls maxRows = ls).
Proof.
  split.
  - intro Hm. unfold bucketLevels, spec_bucketer.
    destruct (Z.ltb_spec maxRows (Z.of_nat (List.length ls))) as [Hn|Hn]; simpl.
    + replace (Z.ltb 0 maxRows) with true by (symmetry; apply Z.ltb_lt; exact Hm).
      replace (Z.leb (Z.of_nat (List.length ls)) maxRows) with false
        by (symmetry; apply Z.leb_gt; exact Hn).
      pose proof (bucket_size_pos _ _ Hm Hn) as Hb.
      split; [apply group_levels_spec; [exact Hb | lia]|].
      split.
      * apply (group_levels_sum bidVol); [reflexivity | exact Hb | lia].
      * apply (group_levels_sum askVol); [reflexivity | exact Hb | lia].
    + replace (Z.leb (Z.of_nat (List.length ls)) maxRows) with true
        by (symmetry; apply Z.leb_le; exact Hn).
      split; [reflexivity|]. split; reflexivity.
  - intro Hm. unfold bucketLevels.
    replace (Z.ltb 0 maxRows) with false by (symmetry; apply Z.ltb_ge; exact Hm).
    rewrite Bool.andb_false_r. reflexivity.
Qed.

Lemma bucketLevels_groups_witness :
  (bucketLevels ex_two_levels 1 = spec_bucketer ex_two_levels 1 /\
   sum_bid (bucketLevels ex_two_levels 1) == sum_bid ex_two_levels /\
   sum_ask (bucketLevels ex_two_levels 1) == sum_ask ex_two_levels) /\
  bucketLevels ex_two_levels 0 = ex_two_levels.
Proof.
  split.
  - apply (proj1 (bucketLevels_groups ex_two_levels 1)). reflexivity.
  - apply (proj2 (bucketLevels_groups ex_two_levels 0)). lia.
Defined.

(** C5 fails as stated for [maxRows = 0]: two levels exceed [maxRows], yet
    the rows are the two levels verbatim, while grouping by
    [ceil(2 / 0)] (Infinity in JavaScript, so any group size from 2 up)
    gives a single row. *)
Lemma bucketer_zero_rows_verbatim :
  bucketLevels ex_two_levels 0 = ex_two_levels /\
  (forall k : nat, (2 <= k)%nat ->
     List.length (map aggregate_bucket (spec_groups k ex_two_levels)) = 1%nat).
Proof.
  split; [reflexivity|].
  intros k Hk. rewrite length_map. unfold spec_groups. rewrite length_map, length_seq.
  simpl. symmetry. apply Nat.div_unique with 1%nat; lia.
Qed.

(** C6 (amended): when [maxRows <= 0] the rows drawn for a candle are its
    levels within [[low, high]], sorted by descending price, verbatim (one
    row per level); no aggregation happens and no error is raised. *)
Theorem levelsToShow_nonpositive_rows (c : OrderFlowCandle) (maxRows : Z) :
  (maxRows <= 0)%Z ->
  levelsToShow c maxRows = sort_desc (filter (in_candle_range c) (bidAskData c)).
Proof.
  intro H. unfold levelsToShow, bucketLevels.
  replace (Z.ltb 0 maxRows) with false by (symmetry; apply Z.ltb_ge; exact H).
  rewrite Bool.andb_false_r. reflexivity.
Qed.

Lemma levelsToShow_nonpositive_rows_witness :
  levelsToShow ex_fp_candle 0 = sort_desc (filter (in_candle_range ex_fp_candle)
                                             (bidAskData ex_fp_candle)).
Proof. apply (levelsToShow_nonpositive_rows ex_fp_candle 0). discriminate. Defined.

(** C6 fails as stated: a candle with one level in its range and
    [maxRows = 0] still gets that level as a row. *)
Lemma zero_rows_still_drawn :
  levelsToShow ex_fp_candle 0 = [mkLevel 100 5 3].
Proof. vm_compute. reflexivity. Qed.

(** ** C7: approximate bid/ask synthesis *)

Lemma approx_levels_members (rnd : nat -> Q) (low high range vpl : Q) (b : bool) :
  forall fuel i l, In l (approx_levels rnd low high range vpl b i fuel) ->
  exists j : nat,
    price l = js_toFixed1 (low + inject_Z (Z.of_nat j) * priceStep) /\
    price l <= high /\ 1 <= bidVol l /\ 1 <= askVol l.
Proof.
  induction fuel as [|f IH]; intros i l Hl; simpl in Hl; [destruct Hl|].
  destruct (Qlt_bool high _) eqn:E in Hl; [destruct Hl|].
  destruct Hl as [<- | Hl]; [|exact (IH (S i) l Hl)].
  exists i. simpl. split; [reflexivity|].
  split; [|split; apply Q.le_max_r].
  unfold Qlt_bool in E. apply Bool.negb_false_iff, Qle_bool_iff in E. exact E.
Qed.

Lemma Qplus_nonneg' (a b : Q) : 0 <= a -> 0 <= b -> 0 <= a + b.
Proof.
  intros Ha Hb. apply (Qle_trans _ (0 + 0)); [exact (Qle_refl 0)|].
  apply Qplus_le_compat; assumption.
Qed.

Lemma toFixed1_grid (low : Q) (z : Z) (j : nat) :
  0 <= low -> low * 10 == inject_Z z ->
  js_toFixed1 (low + inject_Z (Z.of_nat j) * priceStep)
  == low + inject_Z (Z.of_nat j) * priceStep.
Proof.
  intros H0 Hz. set (x := low + inject_Z (Z.of_nat j) * priceStep).
  assert (Hx : 0 <= x).
  { unfold x, priceStep. apply Qplus_nonneg'; [exact H0|].
    apply Qmult_le_0_compat; [|discriminate].
    change 0 with (inject_Z 0). rewrite <- Zle_Qle. lia. }
  unfold js_toFixed1. replace (Qle_bool 0 x) with true
    by (symmetry; apply Qle_bool_iff; exact Hx).
  assert (E : x * 10 + (1 # 2) == inject_Z (z + 5 * Z.of_nat j) + (1 # 2)).
  { unfold x, priceStep. rewrite inject_Z_plus, inject_Z_mult, <- Hz. ring_simplify. ring. }
  rewrite (Qfloor_comp _ _ E), Qfloor_plus_Z.
  change (Qfloor (1 # 2)) with 0%Z. rewrite Z.add_0_r.
  unfold x, priceStep. rewrite inject_Z_plus, inject_Z_mult, <- Hz.
  field.
Qed.

(** C7 (amended): every level synthesised for a bar lies at or below
    [bar.high], and, for a bar with [low >= 0] on the one-decimal grid, at
    or above [bar.low]; every level has a bid and an ask volume of at least
    1. The bid weight [bidRatio] used at a level is strictly larger at
    lower prices of a bar with [high > low], for a bullish bar
    ([close > open]) as for any other; so the ask weight grows with the
    price. The total volume of the levels is not tied to [bar.volume]:
    each level's volumes are scaled by a random factor in [[0.8, 1.2)]. *)
Theorem approx_bidask_shape (rnd : nat -> Q) (o h lo c vol : Q) :
  (forall l, In l (generateApproximateBidAsk rnd o h lo c vol) ->
     price l <= h /\ 1 <= bidVol l /\ 1 <= askVol l) /\
  (0 <= lo -> is_int (lo * 10) ->
   forall l, In l (generateApproximateBidAsk rnd o h lo c vol) -> lo <= price l) /\
  (lo < h -> forall p1 p2 : Q, p1 < p2 ->
     bidRatio true (pricePosition (h - lo) lo p2)
       < bidRatio true (pricePosition (h - lo) lo p1) /\
     bidRatio false (pricePosition (h - lo) lo p2)
       < bidRatio false (pricePosition (h - lo) lo p1)).
Proof.
  split; [|split].
  - intros l Hl. destruct (approx_levels_members _ _ _ _ _ _ _ _ _ Hl) as [j [_ H]].
    exact H.
  - intros H0 [z Hz] l Hl.
    destruct (approx_levels_members _ _ _ _ _ _ _ _ _ Hl) as [j [Hp _]].
    rewrite Hp, (toFixed1_grid lo z j H0 Hz).
    rewrite <- (Qplus_0_r lo) at 1. apply Qplus_le_r.
    unfold priceStep. apply Qmult_le_0_compat; [|discriminate].
    change 0 with (inject_Z 0). rewrite <- Zle_Qle. lia.
  - intros Hr p1 p2 Hp.
    assert (Hpos : 0 < h - lo) by (apply Qlt_minus_iff in Hr; exact Hr).
    unfold pricePosition.
    replace (Qlt_bool 0 (h - lo)) with true.
    2:{ symmetry. unfold Qlt_bool. apply Bool.negb_true_iff.
        destruct (Qle_bool (h - lo) 0) eqn:E; [|reflexivity].
        apply Qle_bool_iff in E. exfalso. apply (Qlt_not_le _ _ Hpos E). }
    assert (Hd : (p1 - lo) / (h - lo) < (p2 - lo) / (h - lo)).
    { apply Qmult_lt_compat_r; [apply Qinv_lt_0_compat; exact Hpos|].
      apply Qplus_lt_l. exact Hp. }
    unfold bidRatio. split; apply Qplus_lt_r; apply Qmult_lt_compat_r;
      try reflexivity; apply Qplus_lt_r; apply Qopp_lt_compat; exact Hd.
Qed.

Lemma approx_bidask_shape_witness :
  Forall (fun l => 100 <= price l) ex_bar_levels /\
  bidRatio true (pricePosition ((403 # 4) - 100) 100 (201 # 2))
    < bidRatio true (pricePosition ((403 # 4) - 100) 100 100).
Proof.
  destruct (approx_bidask_shape (fun _ => 0) 100 (403 # 4) 100 (403 # 4) 100)
    as [_ [H2 H3]].
  split.
  - apply Forall_forall. apply H2.
    + apply Qle_bool_iff. reflexivity.
    + exists 1000%Z. reflexivity.
  - apply (proj1 (H3 (eq_refl : 100 < 403 # 4) 100 (201 # 2) (eq_refl : 100 < 201 # 2))).
Defined.

(** C7 fails as stated: for the bar of [ex_bar_levels] (volume 100, a
    range that gives two levels and no extra one) the levels total 80,
    the random factor being 0.8 at every level. *)
Lemma approx_bidask_volume_not_bar_volume :
  sum_volume ex_bar_levels == 80 /\ ~ (sum_volume ex_bar_levels == 100).
Proof. split; vm_compute; [reflexivity | discriminate]. Qed.


(** * Further properties of the code *)

(** ** Insertion sort *)

Section InsertionSortFacts.
Context {A : Type} (ltb : A -> A -> bool).

Lemma insert_by_perm (x : A) (xs : list A) :
  Permutation (insert_by ltb x xs) (x :: xs).
Proof.
  induction xs as [|y ys IH]; simpl; [reflexivity|].
  destruct (ltb x y); [reflexivity|].
  rewrite IH. apply perm_swap.
Qed.

Lemma sort_by_perm (xs : list A) : Permutation (sort_by ltb xs) xs.
Proof.
  unfold sort_by.
  assert (H : forall acc, Permutation
    (fold_left (fun acc x => insert_by ltb x acc) xs acc) (xs ++ acc)).
  { induction xs as [|x xs IH]; intro acc; simpl; [reflexivity|].
    rewrite IH, insert_by_perm. symmetry. apply Permutation_middle. }
  rewrite H, app_nil_r. reflexivity.
Qed.

Lemma sorted_by_cons2 (a b : A) (xs : list A) :
  sorted_by ltb (a :: b :: xs) = (negb (ltb b a) && sorted_by ltb (b :: xs))%bool.
Proof. reflexivity. Qed.

Hypothesis ltb_asym : forall a b, ltb a b = true -> ltb b a = false.

Lemma insert_by_sorted (x : A) (xs : list A) :
  sorted_by ltb xs = true -> sorted_by ltb (insert_by ltb x xs) = true.
Proof.
  induction xs as [|y ys IH]; intro H; [reflexivity|].
  cbn [insert_by]. destruct (ltb x y) eqn:Exy.
  - cbn [sorted_by]. rewrite (ltb_asym _ _ Exy). exact H.
  - destruct ys as [|z zs].
    + cbn. rewrite Exy. reflexivity.
    + cbn [sorted_by] in H. apply andb_prop in H as [Hyz Hrest].
      specialize (IH Hrest). cbn [insert_by] in IH |- *.
      destruct (ltb x z) eqn:Exz.
      * cbn [sorted_by] in IH |- *. rewrite Exy. exact IH.
      * cbn [sorted_by] in IH |- *. rewrite Hyz. exact IH.
Qed.

Lemma sort_by_sorted (xs : list A) : sorted_by ltb (sort_by ltb xs) = true.
Proof.
  unfold sort_by.
  assert (H : forall acc, sorted_by ltb acc = true ->
    sorted_by ltb (fold_left (fun acc x => insert_by ltb x acc) xs acc) = true).
  { induction xs as [|x xs IH]; intros acc Hacc; simpl; [exact Hacc|].
    apply IH. apply insert_by_sorted. exact Hacc. }
  apply H. reflexivity.
Qed.

End InsertionSortFacts.

(** Sorted by an integer key with no key repeated: strictly increasing. *)
Lemma sorted_by_increasing {A : Type} (key : A -> Z) (xs : list A) :
  sorted_by (fun a b => Z.ltb (key a) (key b)) xs = true ->
  NoDup (map key xs) -> increasing (map key xs) = true.
Proof.
  induction xs as [|a xs IH]; intros Hs Hn; [reflexivity|].
  destruct xs as [|b xs]; [reflexivity|].
  cbn [sorted_by] in Hs. apply andb_prop in Hs as [Hab Hs].
  cbn [map] in Hn |- *. inversion Hn as [|? ? Hnin Hn']; subst.
  specialize (IH Hs Hn'). cbn [map] in IH.
  change (increasing (key a :: key b :: map key xs))
    with (Z.ltb (key a) (key b) && increasing (key b :: map key xs))%bool.
  rewrite IH.
  apply Bool.negb_true_iff, Z.ltb_ge in Hab.
  assert (key a <> key b) by (intro E; apply Hnin; left; symmetry; exact E).
  rewrite Bool.andb_true_r. apply Z.ltb_lt. lia.
Qed.

Lemma Z_ltb_asym {A : Type} (key : A -> Z) (a b : A) :
  Z.ltb (key a) (key b) = true -> Z.ltb (key b) (key a) = false.
Proof. intro H. apply Z.ltb_lt in H. apply Z.ltb_ge. lia. Qed.

Lemma Qlt_bool_asym (x y : Q) : Qlt_bool x y = true -> Qlt_bool y x = false.
Proof.
  unfold Qlt_bool. intro H. apply Bool.negb_true_iff, Bool.not_true_iff_false in H.
  apply Bool.negb_false_iff, Qle_bool_iff.
  destruct (Qlt_le_dec y x) as [Hl|Hl]; [|exact Hl].
  exfalso. apply H, Qle_bool_iff, Qlt_le_weak. exact Hl.
Qed.

Lemma Qlt_bool_iff (x y : Q) : Qlt_bool x y = true <-> x < y.
Proof.
  unfold Qlt_bool. rewrite Bool.negb_true_iff. split.
  - intro H. apply Qnot_le_lt. intro H'. apply Qle_bool_iff in H'. congruence.
  - intro H. destruct (Qle_bool y x) eqn:E; [|reflexivity].
    apply Qle_bool_iff in E. exfalso. exact (Qlt_not_le _ _ H E).
Qed.

(** [sort_desc] is the stable sort with comparator [b.price - a.price]. *)
Lemma insert_desc_by (l : BidAskLevel) (ls : list BidAskLevel) :
  insert_desc l ls = insert_by (fun a b => Qlt_bool (price b) (price a)) l ls.
Proof. induction ls as [|x ls IH]; simpl; [reflexivity|]. rewrite IH. reflexivity. Qed.

Lemma sort_desc_by (ls : list BidAskLevel) :
  sort_desc ls = sort_by (fun a b => Qlt_bool (price b) (price a)) ls.
Proof.
  unfold sort_desc, sort_by.
  assert (H : forall acc, fold_left (fun acc l => insert_desc l acc) ls acc
    = fold_left (fun acc x => insert_by (fun a b => Qlt_bool (price b) (price a)) x acc) ls acc).
  { induction ls as [|x ls IH]; intro acc; simpl; [reflexivity|].
    rewrite insert_desc_by. apply IH. }
  apply H.
Qed.

Lemma sorted_by_desc (ls : list BidAskLevel) :
  sorted_by (fun a b => Qlt_bool (price b) (price a)) ls = sorted_desc (map price ls).
Proof.
  induction ls as [|a ls IH]; [reflexivity|].
  destruct ls as [|b ls]; [reflexivity|].
  rewrite sorted_by_cons2, IH. unfold Qlt_bool. rewrite Bool.negb_involutive.
  reflexivity.
Qed.

Lemma sorted_by_asc (ls : list BidAskLevel) :
  sorted_by (fun a b => Qlt_bool (price a) (price b)) ls = sorted_asc (map price ls).
Proof.
  induction ls as [|a ls IH]; [reflexivity|].
  destruct ls as [|b ls]; [reflexivity|].
  rewrite sorted_by_cons2, IH. unfold Qlt_bool. rewrite Bool.negb_involutive.
  reflexivity.
Qed.

(** ** Rounding is monotone *)

Lemma js_round_le (x y : Q) : x <= y -> js_round x <= js_round y.
Proof.
  intro H. unfold js_round. rewrite <- Zle_Qle. apply Qfloor_resp_le.
  apply Qplus_le_compat; [exact H | apply Qle_refl].
Qed.

Lemma js_round_opp_ge (x : Q) : - js_round x <= js_round (- x).
Proof.
  unfold js_round. rewrite <- inject_Z_opp, <- Zle_Qle.
  pose proof (Qlt_floor (x + (1 # 2))) as H.
  rewrite inject_Z_plus in H. change (inject_Z 1) with 1 in H.
  rewrite <- (Qfloor_Z (- Qfloor (x + (1 # 2)))). apply Qfloor_resp_le.
  rewrite inject_Z_opp. lra.
Qed.

(** ** Relative strength *)

Lemma rs_of_sums (d v : Q) :
  - v <= d -> d <= v ->
  let x := js_round d in let y := js_round v in
  -100 <= (if Qlt_bool 0 y then x / y * 100 else 0) /\
  (if Qlt_bool 0 y then x / y * 100 else 0) <= 100.
Proof.
  intros H1 H2 x y.
  destruct (Qlt_bool 0 y) eqn:E; [|split; discriminate].
  apply Qlt_bool_iff in E.
  assert (Hx1 : x <= y) by (apply js_round_le; exact H2).
  assert (Hx2 : - y <= x).
  { apply (Qle_trans _ (js_round (- v))); [apply js_round_opp_ge | apply js_round_le; exact H1]. }
  split.
  - setoid_replace (-100) with ((-1) * 100) by reflexivity.
    apply Qmult_le_compat_r; [|discriminate].
    apply Qle_shift_div_l; [exact E|].
    setoid_replace (-1 * y) with (- y) by ring. exact Hx2.
  - setoid_replace 100 with (1 * 100) at 2 by reflexivity.
    apply Qmult_le_compat_r; [|discriminate].
    apply Qle_shift_div_r; [exact E|].
    setoid_replace (1 * y) with y by ring. exact Hx1.
Qed.

Lemma levels_nonneg_sums (ls : list BidAskLevel) :
  levels_nonneg ls -> - sum_volume ls <= sum_delta ls /\ sum_delta ls <= sum_volume ls.
Proof.
  induction ls as [|l ls IH]; intro H; [split; discriminate|].
  inversion H as [|? ? [Hb Ha] Hr]; subst.
  destruct (IH Hr) as [I1 I2].
  rewrite sum_delta_cons, sum_volume_cons. split.
  - setoid_replace (- (bidVol l + askVol l + sum_volume ls))
      with ((- bidVol l - askVol l) + - sum_volume ls) by ring.
    apply Qplus_le_compat; [|exact I1].
    apply (Qplus_le_l _ _ (askVol l + bidVol l)).
    setoid_replace (- bidVol l - askVol l + (askVol l + bidVol l)) with 0 by ring.
    setoid_replace (bidVol l - askVol l + (askVol l + bidVol l)) with (bidVol l + bidVol l) by ring.
    apply Qplus_nonneg'; exact Hb.
  - apply Qplus_le_compat; [|exact I2].
    apply (Qplus_le_l _ _ (askVol l)).
    setoid_replace (bidVol l - askVol l + askVol l) with (bidVol l + 0) by ring.
    setoid_replace (bidVol l + askVol l + askVol l) with (bidVol l + (askVol l + askVol l)) by ring.
    apply Qplus_le_compat; [apply Qle_refl | apply Qplus_nonneg'; exact Ha].
Qed.

Lemma rs_recalc (c : OrderFlowCandle) :
  levels_nonneg (bidAskData c) ->
  -100 <= relativeStrength (recalculateMetrics c) /\
  relativeStrength (recalculateMetrics c) <= 100.
Proof.
  intro H. destruct (levels_nonneg_sums _ H) as [H1 H2].
  exact (rs_of_sums _ _ H1 H2).
Qed.

(** ** The aggregator, more steps *)

Lemma processTrade_stay (tf : Z) (st : Connector) (t : BybitTrade) :
  (bucketStart tf (trade_T t) <= candleStartTime st)%Z ->
  processTrade tf st t =
    match currentCandle st with
    | Some c => (mkConnector (candleStartTime st) (Some (apply_trade c t)),
                 [Update (apply_trade c t)])
    | None => (st, [])
    end.
Proof.
  intro H. unfold processTrade.
  replace (Z.ltb (candleStartTime st) (bucketStart tf (trade_T t))) with false
    by (symmetry; apply Z.ltb_ge; exact H).
  destruct (currentCandle st); reflexivity.
Qed.

(** A property of states kept by every trade, and a property of every
    notification sent, carry over to a whole sequence of trades. *)
Lemma processTrades_keep (tf : Z) (P : Connector -> Prop) (E : Emit -> Prop)
    (T : BybitTrade -> Prop) :
  (forall st t, P st -> T t ->
     let '(st', ev) := processTrade tf st t in P st' /\ Forall E ev) ->
  forall ts st, P st -> Forall T ts ->
  let '(st', ev) := processTrades tf st ts in P st' /\ Forall E ev.
Proof.
  intros Hstep ts. induction ts as [|t ts IH]; intros st Hp Ht; simpl.
  - split; [exact Hp | constructor].
  - inversion Ht as [|? ? Ht1 Hts]; subst.
    pose proof (Hstep st t Hp Ht1) as H1.
    destruct (processTrade tf st t) as [st1 ev1].
    destruct H1 as [P1 E1].
    pose proof (IH st1 P1 Hts) as H2.
    destruct (processTrades tf st1 ts) as [st2 ev2].
    destruct H2 as [P2 E2]. split; [exact P2|]. apply Forall_app. split; assumption.
Qed.

Lemma apply_trade_ohlc (c : OrderFlowCandle) (t : BybitTrade) :
  low c <= open c -> open c <= high c -> ohlc_ok (apply_trade c t).
Proof.
  intros H1 H2. unfold apply_trade, recalculateMetrics, ohlc_ok. simpl.
  split; [|split; [|split]].
  - eapply Qle_trans; [apply Q.le_min_l | exact H1].
  - eapply Qle_trans; [exact H2 | apply Q.le_max_l].
  - apply Q.le_min_r.
  - apply Q.le_max_r.
Qed.

Lemma add_side_nonneg (side : string) (vol : Q) (l : BidAskLevel) :
  0 <= vol -> 0 <= bidVol l /\ 0 <= askVol l ->
  0 <= bidVol (add_side side vol l) /\ 0 <= askVol (add_side side vol l).
Proof.
  intros Hv [Hb Ha]. unfold add_side.
  destruct (String.eqb side "Buy"); simpl; split; try assumption;
    apply Qplus_nonneg'; assumption.
Qed.

Lemma updateBidAskData_nonneg (p vol : Q) (side : string) (ls : list BidAskLevel) :
  0 <= vol -> levels_nonneg ls -> levels_nonneg (updateBidAskData p vol side ls).
Proof.
  intros Hv. induction ls as [|l ls IH]; intro H; simpl.
  - constructor; [|constructor]. apply add_side_nonneg; [exact Hv|].
    split; apply Qle_refl.
  - inversion H as [|? ? Hl Hr]; subst.
    destruct (Qeq_bool (price l) p).
    + constructor; [apply add_side_nonneg; assumption | exact Hr].
    + constructor; [exact Hl | apply IH; exact Hr].
Qed.

Lemma add_side_sums (side : string) (vol : Q) (l : BidAskLevel) :
  bidVol (add_side side vol l) + askVol (add_side side vol l)
    == bidVol l + askVol l + vol /\
  bidVol (add_side side vol l) - askVol (add_side side vol l)
    == bidVol l - askVol l + (if String.eqb side "Buy" then vol else - vol).
Proof.
  unfold add_side. destruct (String.eqb side "Buy"); simpl; split; ring.
Qed.

Lemma trades_volume_cons (t : BybitTrade) (ts : list BybitTrade) :
  trades_volume (t :: ts) == trade_v t + trades_volume ts.
Proof.
  unfold trades_volume. simpl.
  assert (Hs : forall xs s, fold_left (fun s t => s + trade_v t) xs s
                            == s + fold_left (fun s t => s + trade_v t) xs 0).
  { induction xs as [|x xs IH]; intro s; simpl; [ring|].
    rewrite (IH (s + _)), (IH (0 + _)). ring. }
  rewrite Hs. ring.
Qed.

Lemma trades_delta_cons (t : BybitTrade) (ts : list BybitTrade) :
  trades_delta (t :: ts)
  == (if String.eqb (trade_S t) "Buy" then trade_v t else - trade_v t) + trades_delta ts.
Proof.
  unfold trades_delta. simpl.
  assert (Hs : forall xs s,
    fold_left (fun s t => s + (if String.eqb (trade_S t) "Buy" then trade_v t else - trade_v t)) xs s
    == s + fold_left (fun s t => s + (if String.eqb (trade_S t) "Buy" then trade_v t else - trade_v t)) xs 0).
  { induction xs as [|x xs IH]; intro s; simpl; [ring|].
    rewrite (IH (s + _)), (IH (0 + _)). ring. }
  rewrite Hs. ring.
Qed.

Lemma open_ts_step (tf : Z) (st : Connector) (t : BybitTrade) :
  open_ts_ok st ->
  let '(st', ev) := processTrade tf st t in
  open_ts_ok st' /\ (candleStartTime st <= candleStartTime st')%Z /\
  (closed_of ev = [] \/
   exists c, closed_of ev = [c] /\ timestamp c = candleStartTime st /\
             (candleStartTime st < candleStartTime st')%Z).
Proof.
  intro H. destruct (Z.ltb_spec (candleStartTime st) (bucketStart tf (trade_T t))) as [Hl|Hl].
  - rewrite (processTrade_later _ _ _ Hl). cbn [candleStartTime currentCandle open_ts_ok].
    split; [reflexivity|]. split; [lia|].
    rewrite closed_of_app. unfold open_ts_ok in H.
    destruct (currentCandle st) as [c0|]; simpl.
    + right. exists c0. split; [reflexivity|]. split; [exact H | exact Hl].
    + left. reflexivity.
  - rewrite (processTrade_stay _ _ _ Hl). unfold open_ts_ok in H |- *.
    destruct (currentCandle st) as [c0|] eqn:E; cbn [candleStartTime currentCandle closed_of].
    + split; [exact H|]. split; [lia|]. left. reflexivity.
    + split; [unfold open_ts_ok; rewrite E; exact I|]. split; [lia|]. left. reflexivity.
Qed.

Lemma increasing_cons (a : Z) (zs : list Z) :
  increasing zs = true -> Forall (fun z => (a < z)%Z) zs -> increasing (a :: zs) = true.
Proof.
  intros H1 H2. destruct zs as [|b zs]; [reflexivity|].
  inversion H2; subst. change ((a <? b)%Z && increasing (b :: zs) = true)%bool.
  rewrite H1. apply andb_true_intro. split; [apply Z.ltb_lt; assumption | reflexivity].
Qed.

Lemma updateBidAskData_sums (p vol : Q) (side : string) (ls : list BidAskLevel) :
  sum_volume (updateBidAskData p vol side ls) == sum_volume ls + vol /\
  sum_delta (updateBidAskData p vol side ls)
    == sum_delta ls + (if String.eqb side "Buy" then vol else - vol).
Proof.
  induction ls as [|l ls IH]; simpl.
  - destruct (add_side_sums side vol (mkLevel p 0 0)) as [S1 S2].
    rewrite sum_volume_cons, sum_delta_cons, S1, S2. simpl.
    split; unfold sum_volume, sum_delta; simpl; ring.
  - destruct IH as [I1 I2]. destruct (Qeq_bool (price l) p).
    + destruct (add_side_sums side vol l) as [S1 S2].
      rewrite !sum_volume_cons, !sum_delta_cons, S1, S2. split; ring.
    + rewrite !sum_volume_cons, !sum_delta_cons, I1, I2. split; ring.
Qed.

Lemma updates_of_app (a b : list Emit) : updates_of (a ++ b) = updates_of a ++ updates_of b.
Proof.
  induction a as [|e a IH]; [reflexivity|].
  destruct e; simpl; rewrite IH; reflexivity.
Qed.

Lemma updates_of_Forall (P : OrderFlowCandle -> Prop) (ev : list Emit) :
  Forall (fun e => match e with Update c => P c | Closed _ => True end) ev ->
  Forall P (updates_of ev).
Proof.
  induction ev as [|e ev IH]; intro H; [constructor|].
  inversion H as [|? ? He Hr]; subst.
  destruct e; simpl; [apply IH; exact Hr | constructor; [exact He | apply IH; exact Hr]].
Qed.

Lemma processTrade_open_update (tf : Z) (st : Connector) (t : BybitTrade) (c : OrderFlowCandle) :
  currentCandle st = Some c ->
  let '(st', ev) := processTrade tf st t in
  exists c', currentCandle st' = Some c' /\ updates_of ev = [c'].
Proof.
  intro Hc. destruct (Z.ltb_spec (candleStartTime st) (bucketStart tf (trade_T t))) as [Hl|Hl].
  - rewrite (processTrade_later _ _ _ Hl), Hc. simpl. eexists. split; reflexivity.
  - rewrite (processTrade_stay _ _ _ Hl), Hc. simpl. eexists. split; reflexivity.
Qed.

Lemma processTrades_ts_aux (tf : Z) (ts : list BybitTrade) :
  forall st, open_ts_ok st ->
  let '(st', ev) := processTrades tf st ts in
  open_ts_ok st' /\ (candleStartTime st <= candleStartTime st')%Z /\
  increasing (map timestamp (produced st' ev)) = true /\
  Forall (fun z => (candleStartTime st <= z)%Z) (map timestamp (produced st' ev)).
Proof.
  induction ts as [|t ts IH]; intros st H; simpl.
  - split; [exact H|]. split; [lia|]. unfold produced, open_ts_ok in *. simpl.
    destruct (currentCandle st) as [c|]; simpl.
    + split; [reflexivity|]. constructor; [lia | constructor].
    + split; [reflexivity | constructor].
  - pose proof (open_ts_step tf st t H) as H1.
    destruct (processTrade tf st t) as [st1 ev1].
    destruct H1 as [O1 [L1 C1]].
    pose proof (IH st1 O1) as H2.
    destruct (processTrades tf st1 ts) as [st2 ev2].
    destruct H2 as [O2 [L2 [I2 F2]]].
    assert (Hp : produced st2 (ev1 ++ ev2) = closed_of ev1 ++ produced st2 ev2)
      by (unfold produced; rewrite closed_of_app, app_assoc; reflexivity).
    rewrite Hp. split; [exact O2|]. split; [lia|].
    destruct C1 as [E | [c [E [Et Hlt]]]]; rewrite E; simpl.
    + split; [exact I2|]. eapply Forall_impl; [|exact F2]. simpl. intros z Hz. lia.
    + split.
      * apply increasing_cons; [exact I2|]. eapply Forall_impl; [|exact F2].
        simpl. intros z Hz. lia.
      * constructor; [lia|]. eapply Forall_impl; [|exact F2]. simpl. intros z Hz. lia.
Qed.

(** X2: [updateBidAskData] adds exactly the trade size to the total volume
    of the levels, and adds it to (['Buy']) or subtracts it from (any
    other side) the total [bidVol - askVol]. *)
Theorem updateBidAskData_totals (p vol : Q) (side : string) (ls : list BidAskLevel) :
  sum_volume (updateBidAskData p vol side ls) == sum_volume ls + vol /\
  sum_delta (updateBidAskData p vol side ls)
    == sum_delta ls + (if String.eqb side "Buy" then vol else - vol).
Proof. exact (updateBidAskData_sums p vol side ls). Qed.

(** X3: while trades stay in the bucket of the open candle, no candle is
    finalised, [candleStartTime] is kept, and the level volumes of the
    open candle grow by the total trade size, its level delta by the
    buy size minus the sell size. *)
Theorem processTrades_same_candle_totals (tf : Z) (st : Connector)
    (ts : list BybitTrade) (c : OrderFlowCandle) :
  currentCandle st = Some c ->
  Forall (fun t => (bucketStart tf (trade_T t) <= candleStartTime st)%Z) ts ->
  let '(st', ev) := processTrades tf st ts in
  candleStartTime st' = candleStartTime st /\ closed_of ev = [] /\
  exists c', currentCandle st' = Some c' /\
    sum_volume (bidAskData c') == sum_volume (bidAskData c) + trades_volume ts /\
    sum_delta (bidAskData c') == sum_delta (bidAskData c) + trades_delta ts.
Proof.
  revert st c. induction ts as [|t ts IH]; intros st c Hc Hts; simpl.
  - split; [reflexivity|]. split; [reflexivity|].
    exists c. split; [exact Hc|]. unfold trades_volume, trades_delta. simpl. split; ring.
  - inversion Hts as [|? ? Ht Hr]; subst.
    rewrite (processTrade_stay _ _ _ Ht), Hc.
    pose proof (IH (mkConnector (candleStartTime st) (Some (apply_trade c t)))
                  (apply_trade c t) eq_refl Hr) as H2.
    destruct (processTrades tf _ ts) as [st2 ev2].
    destruct H2 as [S2 [C2 [c' [Hc' [V2 D2]]]]].
    simpl in S2. split; [exact S2|]. split; [exact C2|].
    exists c'. split; [exact Hc'|].
    destruct (updateBidAskData_sums (js_round (trade_p t * 2) / 2) (trade_v t) (trade_S t)
                (bidAskData c)) as [V1 D1].
    unfold apply_trade, recalculateMetrics in V2, D2. simpl in V2, D2.
    rewrite trades_volume_cons, trades_delta_cons.
    rewrite V2, V1, D2, D1. split; ring.
Qed.

(** X4: when no candle is open, or the open candle has
    [low <= open <= high] and [low <= close <= high], then after any run
    of trades the candle left open (if any) and every candle sent as an
    update have [low <= open <= high] and [low <= close <= high]. *)
Theorem processTrades_ohlc (tf : Z) (st : Connector) (ts : list BybitTrade) :
  open_ohlc_ok st ->
  let '(st', ev) := processTrades tf st ts in
  open_ohlc_ok st' /\ Forall ohlc_ok (updates_of ev).
Proof.
  intro H.
  assert (Step : forall st0 t, open_ohlc_ok st0 -> True ->
    let '(st1, ev) := processTrade tf st0 t in
    open_ohlc_ok st1 /\
    Forall (fun e => match e with Update c => ohlc_ok c | Closed _ => True end) ev).
  { intros st0 t Hp _.
    destruct (Z.ltb_spec (candleStartTime st0) (bucketStart tf (trade_T t))) as [Hl|Hl].
    - rewrite (processTrade_later _ _ _ Hl).
      assert (Ho : ohlc_ok (apply_trade (new_candle (bucketStart tf (trade_T t)) (trade_p t)
                                           (currentCandle st0)) t))
        by (apply apply_trade_ohlc; apply Qle_refl).
      split; [exact Ho|]. apply Forall_app. split.
      + destruct (currentCandle st0); [constructor; [exact I | constructor] | constructor].
      + constructor; [exact Ho | constructor].
    - rewrite (processTrade_stay _ _ _ Hl). unfold open_ohlc_ok in Hp.
      destruct (currentCandle st0) as [c|] eqn:E.
      + destruct Hp as [H1 [H2 _]].
        pose proof (apply_trade_ohlc c t H1 H2) as Ho.
        split; [exact Ho | constructor; [exact Ho | constructor]].
      + split; [unfold open_ohlc_ok; rewrite E; exact I | constructor]. }
  pose proof (processTrades_keep tf open_ohlc_ok _ (fun _ => True) Step ts st H) as K.
  assert (Ht : Forall (fun _ : BybitTrade => True) ts)
    by (apply Forall_forall; intros; exact I).
  specialize (K Ht).
  destruct (processTrades tf st ts) as [st' ev].
  destruct K as [K1 K2]. split; [exact K1 | apply updates_of_Forall; exact K2].
Qed.

(** X5: while a candle is open, every trade sends exactly one candle to
    [onCandleUpdate] (so a run of [n] trades sends [n] updates, besides
    the finalised candles), and the last one sent is the candle left
    open. *)
Theorem processTrades_update_per_trade (tf : Z) (st : Connector) (ts : list BybitTrade) :
  currentCandle st <> None ->
  let '(st', ev) := processTrades tf st ts in
  List.length (updates_of ev) = List.length ts /\
  (ts <> [] -> exists c pre, currentCandle st' = Some c /\ updates_of ev = pre ++ [c]).
Proof.
  revert st. induction ts as [|t ts IH]; intros st Hst; simpl.
  - split; [reflexivity | intro H; congruence].
  - destruct (currentCandle st) as [c0|] eqn:E; [|congruence].
    pose proof (processTrade_open_update tf st t c0 E) as H1.
    destruct (processTrade tf st t) as [st1 ev1].
    destruct H1 as [c1 [Hc1 U1]].
    assert (Hn : currentCandle st1 <> None) by congruence.
    pose proof (IH st1 Hn) as H2.
    destruct (processTrades tf st1 ts) as [st2 ev2] eqn:E2.
    destruct H2 as [L2 P2].
    rewrite updates_of_app, U1. split; [simpl; rewrite L2; reflexivity|].
    intros _. destruct ts as [|t' ts'].
    + simpl in E2. inversion E2; subst. exists c1, []. split; [exact Hc1 | reflexivity].
    + destruct (P2 ltac:(discriminate)) as [c [pre [Hc Hu]]].
      exists c, (c1 :: pre). split; [exact Hc|]. rewrite Hu. reflexivity.
Qed.

Lemma processTrades_update_per_trade_witness :
  let '(st', ev) := processTrades ms15m ex_late_state (ex_roll_trades 1800000) in
  List.length (updates_of ev) = List.length (ex_roll_trades 1800000) /\
  (ex_roll_trades 1800000 <> [] ->
   exists c pre, currentCandle st' = Some c /\ updates_of ev = pre ++ [c]).
Proof.
  apply (processTrades_update_per_trade ms15m ex_late_state (ex_roll_trades 1800000)).
  discriminate.
Defined.

(** X6: when the open candle is stamped with [candleStartTime], it stays
    so; [candleStartTime] never goes back; and the candles finalised in a
    run, followed by the one left open, have strictly increasing
    timestamps. *)
Theorem processTrades_timestamps (tf : Z) (st : Connector) (ts : list BybitTrade) :
  open_ts_ok st ->
  let '(st', ev) := processTrades tf st ts in
  open_ts_ok st' /\ (candleStartTime st <= candleStartTime st')%Z /\
  increasing (map timestamp (produced st' ev)) = true.
Proof.
  intro H. pose proof (processTrades_ts_aux tf ts st H) as A.
  destruct (processTrades tf st ts) as [st' ev].
  destruct A as [A1 [A2 [A3 _]]]. split; [exact A1|]. split; assumption.
Qed.

Lemma processTrades_timestamps_witness :
  let '(st', ev) := processTrades ms15m ex_start (ex_roll_trades 900000) in
  open_ts_ok st' /\ (candleStartTime ex_start <= candleStartTime st')%Z /\
  increasing (map timestamp (produced st' ev)) = true.
Proof. apply (processTrades_timestamps ms15m ex_start (ex_roll_trades 900000)). exact I. Defined.

(** X7: when the open candle's levels and all trade sizes are
    non-negative, every candle sent after a trade has a relative strength
    ([delta / volume * 100], or 0 when [volume <= 0]) between -100 and
    100. *)
Theorem processTrades_relative_strength (tf : Z) (st : Connector) (ts : list BybitTrade) :
  open_levels_nonneg st -> Forall (fun t => 0 <= trade_v t) ts ->
  let '(st', ev) := processTrades tf st ts in
  Forall (fun c => -100 <= relativeStrength c /\ relativeStrength c <= 100) (updates_of ev).
Proof.
  intros H Ht.
  assert (Step : forall st0 t, open_levels_nonneg st0 -> 0 <= trade_v t ->
    let '(st1, ev) := processTrade tf st0 t in
    open_levels_nonneg st1 /\
    Forall (fun e => match e with
                     | Update c => -100 <= relativeStrength c /\ relativeStrength c <= 100
                     | Closed _ => True end) ev).
  { intros st0 t Hp Hv.
    assert (Hc : forall c, levels_nonneg (bidAskData c) ->
              levels_nonneg (bidAskData (apply_trade c t)) /\
              -100 <= relativeStrength (apply_trade c t) /\
              relativeStrength (apply_trade c t) <= 100).
    { intros c Hl.
      assert (Hn : levels_nonneg (updateBidAskData (js_round (trade_p t * 2) / 2) (trade_v t)
                                   (trade_S t) (bidAskData c)))
        by (apply updateBidAskData_nonneg; assumption).
      split; [exact Hn|]. unfold apply_trade. apply rs_recalc. exact Hn. }
    destruct (Z.ltb_spec (candleStartTime st0) (bucketStart tf (trade_T t))) as [Hl|Hl].
    - rewrite (processTrade_later _ _ _ Hl).
      destruct (Hc (new_candle (bucketStart tf (trade_T t)) (trade_p t) (currentCandle st0)))
        as [Hn Hr]; [constructor|].
      split; [exact Hn|]. apply Forall_app. split.
      + destruct (currentCandle st0); [constructor; [exact I | constructor] | constructor].
      + constructor; [exact Hr | constructor].
    - rewrite (processTrade_stay _ _ _ Hl). unfold open_levels_nonneg in Hp.
      destruct (currentCandle st0) as [c|] eqn:E.
      + destruct (Hc c Hp) as [Hn Hr].
        split; [exact Hn | constructor; [exact Hr | constructor]].
      + split; [unfold open_levels_nonneg; rewrite E; exact I | constructor]. }
  pose proof (processTrades_keep tf open_levels_nonneg _ (fun t => 0 <= trade_v t) Step ts st H Ht)
    as K.
  destruct (processTrades tf st ts) as [st' ev].
  destruct K as [_ K]. apply updates_of_Forall. exact K.
Qed.

Lemma processTrades_relative_strength_witness :
  let '(st', ev) := processTrades ms15m ex_start ex_int_trades in
  Forall (fun c => -100 <= relativeStrength c /\ relativeStrength c <= 100) (updates_of ev).
Proof.
  apply (processTrades_relative_strength ms15m ex_start ex_int_trades).
  - exact I.
  - repeat constructor; discriminate.
Defined.

Lemma processTrades_same_candle_totals_witness :
  let st := mkConnector 900000 (Some (new_candle 900000 100 None)) in
  let '(st', ev) := processTrades ms15m st ex_int_trades in
  candleStartTime st' = candleStartTime st /\ closed_of ev = [] /\
  exists c', currentCandle st' = Some c' /\
    sum_volume (bidAskData c') == sum_volume (bidAskData (new_candle 900000 100 None))
                                  + trades_volume ex_int_trades /\
    sum_delta (bidAskData c') == sum_delta (bidAskData (new_candle 900000 100 None))
                                 + trades_delta ex_int_trades.
Proof.
  apply (processTrades_same_candle_totals ms15m (mkConnector 900000 (Some (new_candle 900000 100 None)))
           ex_int_trades (new_candle 900000 100 None)).
  - reflexivity.
  - repeat constructor; vm_compute; discriminate.
Defined.

Lemma processTrades_ohlc_witness :
  let '(st', ev) := processTrades ms15m ex_late_state (ex_roll_trades 1800000) in
  open_ohlc_ok st' /\ Forall ohlc_ok (updates_of ev).
Proof.
  apply (processTrades_ohlc ms15m ex_late_state (ex_roll_trades 1800000)).
  vm_compute. repeat split; discriminate.
Defined.

(** ** Footprint rows, statistics panel and backfill *)

Lemma group_rows_bound (n m : Z) :
  (0 < m)%Z -> (m < n)%Z ->
  (Nat.div (Z.to_nat n + Z.to_nat (js_ceil (inject_Z n / inject_Z m)) - 1)
           (Z.to_nat (js_ceil (inject_Z n / inject_Z m))) <= Z.to_nat m)%nat.
Proof.
  intros Hm Hn.
  pose proof (bucket_size_pos n m Hm Hn) as Hb.
  set (C := js_ceil (inject_Z n / inject_Z m)) in *.
  assert (HC : (n <= C * m)%Z).
  { pose proof (Qle_ceiling (inject_Z n / inject_Z m)) as H.
    assert (Hmq : 0 < inject_Z m) by (change 0 with (inject_Z 0); rewrite <- Zlt_Qlt; exact Hm).
    apply (Qmult_le_compat_r _ _ (inject_Z m)) in H; [|apply Qlt_le_weak; exact Hmq].
    unfold Qdiv in H. rewrite <- Qmult_assoc, (Qmult_comm (/ inject_Z m)), Qmult_inv_r in H
      by (intro E; rewrite E in Hmq; discriminate).
    rewrite Qmult_1_r, <- inject_Z_mult in H. rewrite Zle_Qle. exact H. }
  assert (Hc0 : (0 < C)%Z) by lia.
  apply Nat.lt_succ_r. apply Nat.Div0.div_lt_upper_bound.
  assert (Hn' : (Z.to_nat n <= Z.to_nat C * Z.to_nat m)%nat).
  { rewrite <- Z2Nat.inj_mul by lia. apply Z2Nat.inj_le; lia. }
  nia.
Qed.

Lemma bucketLevels_length_le (ls : list BidAskLevel) (m : Z) :
  (0 < m)%Z -> (List.length (bucketLevels ls m) <= Z.to_nat m)%nat.
Proof.
  intro Hm. unfold bucketLevels.
  destruct (Z.ltb_spec m (Z.of_nat (List.length ls))) as [Hn|Hn]; simpl.
  - replace (Z.ltb 0 m) with true by (symmetry; apply Z.ltb_lt; exact Hm).
    pose proof (bucket_size_pos _ _ Hm Hn) as Hb.
    rewrite group_levels_spec; [|exact Hb|lia].
    unfold spec_groups. rewrite length_map, length_map, length_seq.
    pose proof (group_rows_bound (Z.of_nat (List.length ls)) m Hm Hn) as H.
    rewrite Nat2Z.id in H. exact H.
  - lia.
Qed.

Lemma levels_nonneg_approx (rnd : nat -> Q) (low high range vpl : Q) (b : bool) (fuel i : nat) :
  levels_nonneg (approx_levels rnd low high range vpl b i fuel).
Proof.
  apply Forall_forall. intros l Hl.
  destruct (approx_levels_members rnd low high range vpl b fuel i l Hl) as [j [_ [_ [H1 H2]]]].
  split; eapply Qle_trans; try eassumption; discriminate.
Qed.

Lemma alpha_nonzero (v : Q) :
  ~ v == 0 ->
  alpha (getColorForDelta v) == (3 # 10) + Qmin (Qabs v / 50000) 1 * (1 # 2).
Proof.
  intro H. unfold getColorForDelta.
  destruct (Qlt_bool 0 v) eqn:E1; [reflexivity|].
  destruct (Qlt_bool v 0) eqn:E2; [reflexivity|].
  exfalso. apply H.
  assert (~ 0 < v) by (intro X; apply Qlt_bool_iff in X; congruence).
  assert (~ v < 0) by (intro X; apply Qlt_bool_iff in X; congruence).
  apply Qle_antisym; apply Qnot_lt_le; assumption.
Qed.

Lemma backfill_props (rnd : nat -> nat -> Q) (klines : list Kline) :
  forall k cum,
  map (fun c => (timestamp c, open c, high c, low c, close c)) (backfill rnd k cum klines)
  = map (fun kl => (k_start kl, k_open kl, k_high kl, k_low kl, k_close kl)) klines /\
  Forall (fun c => -100 <= relativeStrength c /\ relativeStrength c <= 100)
    (backfill rnd k cum klines).
Proof.
  induction klines as [|kl klines IH]; intros k cum; simpl; [split; [reflexivity | constructor]|].
  destruct (IH (S k) (cum + sum_delta (generateApproximateBidAsk (rnd k) (k_open kl) (k_high kl)
                               (k_low kl) (k_close kl) (k_volume kl)))) as [M F].
  split; [rewrite M; reflexivity|].
  constructor; [|exact F].
  unfold generateApproximateBidAsk.
  match goal with |- context [approx_levels ?r ?a ?b ?c ?d ?e ?f ?g] =>
    destruct (levels_nonneg_sums _ (levels_nonneg_approx r a b c d e g f)) as [H1 H2] end.
  exact (rs_of_sums _ _ H1 H2).
Qed.

(** X8: the footprint sort puts the levels in non-increasing price order
    and keeps every level (a permutation of its input). *)
Theorem sort_desc_sorted (ls : list BidAskLevel) :
  sorted_desc (map price (sort_desc ls)) = true /\ Permutation (sort_desc ls) ls.
Proof.
  rewrite sort_desc_by, <- sorted_by_desc. split.
  - apply sort_by_sorted. intros a b. apply Qlt_bool_asym.
  - apply sort_by_perm.
Qed.

(** X9: with room for [maxLevels > 0] rows, the bucketing never gives
    more than [maxLevels] rows, so the rows drawn for a candle fit its
    height. *)
Theorem levelsToShow_rows_fit (c : OrderFlowCandle) (maxLevels : Z) :
  (0 < maxLevels)%Z -> (List.length (levelsToShow c maxLevels) <= Z.to_nat maxLevels)%nat.
Proof. intro H. unfold levelsToShow. apply bucketLevels_length_le. exact H. Qed.

Lemma levelsToShow_rows_fit_witness :
  (List.length (levelsToShow (mkCandle 0 100 102 98 100
                                [mkLevel 98 1 2; mkLevel 99 3 4; mkLevel 100 5 6;
                                 mkLevel 101 7 8; mkLevel 102 9 10] 0 0 0) 2)
   <= Z.to_nat 2)%nat.
Proof.
  apply (levelsToShow_rows_fit
           (mkCandle 0 100 102 98 100
              [mkLevel 98 1 2; mkLevel 99 3 4; mkLevel 100 5 6;
               mkLevel 101 7 8; mkLevel 102 9 10] 0 0 0) 2).
  reflexivity.
Defined.

(** X10: the backfill returns one candle per kline, in order, with the
    kline's start time, open, high, low and close, and every candle's
    relative strength shown in the statistics panel is between -100 and
    100, whatever [Math.random()] returns. *)
Theorem fetchHistoricalData_bars (rnd : nat -> nat -> Q) (klines : list Kline) :
  map (fun c => (timestamp c, open c, high c, low c, close c)) (fetchHistoricalData rnd klines)
  = map (fun kl => (k_start kl, k_open kl, k_high kl, k_low kl, k_close kl)) klines /\
  Forall (fun c => -100 <= relativeStrength c /\ relativeStrength c <= 100)
    (fetchHistoricalData rnd klines).
Proof. exact (backfill_props rnd klines 0 0). Qed.

(** X11: [getColorForDelta] paints positive values green, negative ones
    red and zero grey (alpha 0.2); for non-zero values the alpha lies in
    [[0.3, 0.8]], grows with the magnitude, and is 0.8 from a magnitude
    of 50000 on. *)
Theorem getColorForDelta_shape (v : Q) :
  (0 < v -> (red (getColorForDelta v), green (getColorForDelta v), blue (getColorForDelta v))
            = (34, 197, 94)%Z) /\
  (v < 0 -> (red (getColorForDelta v), green (getColorForDelta v), blue (getColorForDelta v))
            = (239, 68, 68)%Z) /\
  (v == 0 -> getColorForDelta v = mkRGBA 100 100 100 (1 # 5)) /\
  (~ v == 0 ->
   (3 # 10) <= alpha (getColorForDelta v) /\ alpha (getColorForDelta v) <= (4 # 5) /\
   (50000 <= Qabs v -> alpha (getColorForDelta v) == 4 # 5) /\
   (forall w, ~ w == 0 -> Qabs v <= Qabs w ->
      alpha (getColorForDelta v) <= alpha (getColorForDelta w))).
Proof.
  split; [|split; [|split]].
  - intro H. unfold getColorForDelta.
    replace (Qlt_bool 0 v) with true by (symmetry; apply Qlt_bool_iff; exact H). reflexivity.
  - intro H. unfold getColorForDelta.
    replace (Qlt_bool 0 v) with false
      by (symmetry; apply Bool.not_true_iff_false; intro X; apply Qlt_bool_iff in X;
          apply (Qlt_irrefl v); apply (Qlt_trans _ 0); assumption).
    replace (Qlt_bool v 0) with true by (symmetry; apply Qlt_bool_iff; exact H). reflexivity.
  - intro H. unfold getColorForDelta.
    replace (Qlt_bool 0 v) with false
      by (symmetry; apply Bool.not_true_iff_false; intro X; apply Qlt_bool_iff in X;
          rewrite H in X; discriminate).
    replace (Qlt_bool v 0) with false
      by (symmetry; apply Bool.not_true_iff_false; intro X; apply Qlt_bool_iff in X;
          rewrite H in X; discriminate).
    reflexivity.
  - intro H. rewrite (alpha_nonzero v H).
    assert (A0 : 0 <= Qabs v / 50000)
      by (apply Qle_shift_div_l; [reflexivity | rewrite Qmult_0_l; apply Qabs_nonneg]).
    split; [|split; [|split]].
    + destruct (Q.min_spec (Qabs v / 50000) 1) as [[L E] | [L E]]; rewrite E;
        set (a := Qabs v / 50000) in *; lra.
    + destruct (Q.min_spec (Qabs v / 50000) 1) as [[L E] | [L E]]; rewrite E;
        set (a := Qabs v / 50000) in *; lra.
    + intro Hv. rewrite Q.min_r; [ring|].
      apply Qle_shift_div_l; [reflexivity|]. lra.
    + intros w Hw Hvw. rewrite (alpha_nonzero v H), (alpha_nonzero w Hw).
      assert (Hd : Qabs v / 50000 <= Qabs w / 50000).
      { apply Qmult_le_compat_r; [exact Hvw | discriminate]. }
      destruct (Q.min_spec (Qabs v / 50000) 1) as [[L E] | [L E]]; rewrite E;
      destruct (Q.min_spec (Qabs w / 50000) 1) as [[L' E'] | [L' E']]; rewrite E';
      set (a := Qabs v / 50000) in *; set (b := Qabs w / 50000) in *; lra.
Qed.

(** ** The page's candle merge and the chart series *)








Lemma find_key_unique {A : Type} (key : A -> Z) (l : list A) (u : A) :
  NoDup (map key l) -> In u l -> find (fun c => Z.eqb (key c) (key u)) l = Some u.
Proof.
  induction l as [|a l IH]; intros Hn Hu; [destruct Hu|].
  simpl in Hn. inversion Hn as [|? ? Hnin Hn']; subst. simpl.
  destruct Hu as [<- | Hu].
  - rewrite Z.eqb_refl. reflexivity.
  - destruct (Z.eqb_spec (key a) (key u)) as [E|E].
    + exfalso. apply Hnin. rewrite E. apply in_map. exact Hu.
    + apply IH; assumption.
Qed.

Lemma find_key_perm {A : Type} (key : A -> Z) (t : Z) (l l' : list A) :
  NoDup (map key l) -> Permutation l l' ->
  find (fun x => Z.eqb (key x) t) l' = find (fun x => Z.eqb (key x) t) l.
Proof.
  intros Hn P.
  assert (Hn' : NoDup (map key l'))
    by (eapply Permutation_NoDup; [apply Permutation_map; exact P | exact Hn]).
  destruct (find (fun x => Z.eqb (key x) t) l) as [x|] eqn:E.
  - apply find_some in E as [Hx Ht]. apply Z.eqb_eq in Ht. subst t.
    apply find_key_unique; [exact Hn' | apply (Permutation_in _ P); exact Hx].
  - destruct (find (fun x => Z.eqb (key x) t) l') as [y|] eqn:E'; [|reflexivity].
    apply find_some in E' as [Hy Ht].
    pose proof (find_none _ _ E y (Permutation_in _ (Permutation_sym P) Hy)) as Hf.
    simpl in Hf. congruence.
Qed.


(** ** Chart series *)

Lemma map_set_keys_in (k : Z) (v : ChartBar) (m : list (Z * ChartBar)) (x : Z) :
  In x (map fst (map_set k v m)) -> x = k \/ In x (map fst m).
Proof.
  induction m as [|[k' v'] m IH]; simpl; intro H.
  - destruct H as [<- | []]. left. reflexivity.
  - destruct (Z.eqb_spec k k') as [E|E]; simpl in H.
    + destruct H as [<- | H]; [left; reflexivity | right; right; exact H].
    + destruct H as [<- | H]; [right; left; reflexivity|].
      destruct (IH H) as [-> | H']; [left; reflexivity | right; right; exact H'].
Qed.

Lemma map_set_nodup (k : Z) (v : ChartBar) (m : list (Z * ChartBar)) :
  NoDup (map fst m) -> NoDup (map fst (map_set k v m)).
Proof.
  induction m as [|[k' v'] m IH]; simpl; intro H.
  - constructor; [intros [] | constructor].
  - inversion H as [|? ? Hnin Hn]; subst.
    destruct (Z.eqb_spec k k') as [E|E]; simpl.
    + subst k'. constructor; assumption.
    + constructor; [|apply IH; exact Hn].
      intro Hin. destruct (map_set_keys_in k v m k' Hin) as [E' | E']; [congruence | contradiction].
Qed.

Lemma map_set_consistent (k : Z) (v : ChartBar) (m : list (Z * ChartBar)) :
  bar_time v = k -> Forall (fun kv => bar_time (snd kv) = fst kv) m ->
  Forall (fun kv => bar_time (snd kv) = fst kv) (map_set k v m).
Proof.
  intro Hv. induction m as [|[k' v'] m IH]; simpl; intro H.
  - constructor; [exact Hv | constructor].
  - apply Forall_cons_iff in H as [Hh Hr].
    destruct (Z.eqb k k'); constructor; try assumption. apply IH. exact Hr.
Qed.

Lemma map_set_find (k t : Z) (v : ChartBar) (m : list (Z * ChartBar)) :
  find (fun kv => Z.eqb (fst kv) t) (map_set k v m)
  = if Z.eqb k t then Some (k, v) else find (fun kv => Z.eqb (fst kv) t) m.
Proof.
  induction m as [|[k' v'] m IH]; simpl.
  - destruct (Z.eqb k t); reflexivity.
  - destruct (Z.eqb_spec k k') as [E|E]; simpl.
    + subst k'. destruct (Z.eqb k t); reflexivity.
    + destruct (Z.eqb_spec k' t) as [E'|E'].
      * subst t. replace (Z.eqb k k') with false by (symmetry; apply Z.eqb_neq; exact E).
        reflexivity.
      * exact IH.
Qed.

Lemma find_snd_consistent (t : Z) (m : list (Z * ChartBar)) :
  Forall (fun kv => bar_time (snd kv) = fst kv) m ->
  find (fun b => Z.eqb (bar_time b) t) (map snd m)
  = option_map snd (find (fun kv => Z.eqb (fst kv) t) m).
Proof.
  induction m as [|[k v] m IH]; intro H; [reflexivity|].
  inversion H as [|? ? Hh Hr]; subst. simpl in Hh |- *. rewrite Hh.
  destruct (Z.eqb k t); [reflexivity | apply IH; exact Hr].
Qed.

Lemma map_fst_consistent (m : list (Z * ChartBar)) :
  Forall (fun kv => bar_time (snd kv) = fst kv) m -> map bar_time (map snd m) = map fst m.
Proof.
  induction m as [|[k v] m IH]; intro H; [reflexivity|].
  inversion H as [|? ? Hh Hr]; subst. simpl in Hh |- *. rewrite Hh, IH by exact Hr.
  reflexivity.
Qed.

Lemma chart_fold_inv (data : list OrderFlowCandle) :
  forall m, NoDup (map fst m) -> Forall (fun kv => bar_time (snd kv) = fst kv) m ->
  let m' := fold_left (fun m c => map_set (candleTime c) (toBar c) m) data m in
  NoDup (map fst m') /\ Forall (fun kv => bar_time (snd kv) = fst kv) m'.
Proof.
  induction data as [|c data IH]; intros m H1 H2; simpl; [split; assumption|].
  apply IH; [apply map_set_nodup; exact H1 | apply map_set_consistent; [reflexivity | exact H2]].
Qed.

Lemma chart_fold_find (t : Z) (data : list OrderFlowCandle) :
  forall m acc,
  option_map snd (find (fun kv => Z.eqb (fst kv) t) m) = option_map toBar acc ->
  option_map snd (find (fun kv => Z.eqb (fst kv) t)
                    (fold_left (fun m c => map_set (candleTime c) (toBar c) m) data m))
  = option_map toBar
      (fold_left (fun acc c => if Z.eqb (candleTime c) t then Some c else acc) data acc).
Proof.
  induction data as [|c data IH]; intros m acc H; simpl; [exact H|].
  apply IH. rewrite map_set_find.
  destruct (Z.eqb (candleTime c) t); [reflexivity | exact H].
Qed.



(** X13: in the chart series built from the candles, bar times are
    strictly increasing (one bar per second-resolution time), and the bar
    at time [t] is the one built from the last candle of the input whose
    time is [t]; there is no bar at [t] when no candle has that time. *)
Theorem chartData_latest (data : list OrderFlowCandle) (t : Z) :
  find (fun b => Z.eqb (bar_time b) t) (chartData data) = option_map toBar (last_with t data) /\
  increasing (map bar_time (chartData data)) = true.
Proof.
  pose proof (chart_fold_inv data [] (NoDup_nil _) (Forall_nil _)) as [N C].
  set (m := fold_left (fun m c => map_set (candleTime c) (toBar c) m) data []) in *.
  pose proof (sort_by_perm (fun a b => Z.ltb (bar_time a) (bar_time b)) (map snd m)) as P.
  assert (Nm : NoDup (map bar_time (map snd m))) by (rewrite map_fst_consistent; assumption).
  unfold chartData. fold m. split.
  - rewrite (find_key_perm bar_time t (map snd m)); [|exact Nm | symmetry; exact P].
    rewrite find_snd_consistent by exact C.
    unfold m, last_with. apply chart_fold_find. reflexivity.
  - apply sorted_by_increasing.
    + apply sort_by_sorted. intros a b. apply Z_ltb_asym.
    + eapply Permutation_NoDup; [apply Permutation_map; symmetry; exact P | exact Nm].
Qed.

(** ** Mock data generator *)

Lemma js_round_nonneg (x : Q) : 0 <= x -> 0 <= js_round x.
Proof.
  intro H. apply (Qle_trans _ (js_round 0)); [vm_compute; discriminate|].
  apply js_round_le. exact H.
Qed.

Lemma mock_vols_nonneg (b ir r1 r2 : Q) :
  0 <= b -> 0 <= r1 -> 0 <= r2 ->
  0 <= fst (mock_vols b ir r1 r2) /\ 0 <= snd (mock_vols b ir r1 r2).
Proof.
  intros Hb H1 H2. unfold mock_vols.
  destruct (Qlt_bool (7 # 10) ir); [|destruct (Qlt_bool ir (3 # 10))]; simpl;
    split; apply Qmult_le_0_compat; try exact Hb; lra.
Qed.

Lemma mock_levels_members (rnd : nat -> Q) (low high : Q) (fuel : nat) :
  forall i n l, In l (fst (mock_levels rnd low high i n fuel)) ->
  (exists p, price l = js_round p /\ low <= p /\ p <= high) /\
  ((forall k, 0 <= rnd k) -> 0 <= bidVol l /\ 0 <= askVol l).
Proof.
  induction fuel as [|f IH]; intros i n l H; cbn [mock_levels fst In] in H; [destruct H|].
  destruct (Qlt_bool high (low + inject_Z (Z.of_nat i) * mock_priceStep)) eqn:Eb;
    [cbn [fst In] in H; destruct H|].
  destruct (mock_vols (inject_Z (Qfloor (rnd n * 5000)) + 500) (rnd (S n)) (rnd (S (S n)))
              (rnd (S (S (S n))))) as [bv av] eqn:Ev.
  destruct (mock_levels rnd low high (S i) (S (S (S (S n)))) f) as [rest n'] eqn:Er.
  cbn [fst In] in H. destruct H as [<- | H].
  - split.
    + exists (low + inject_Z (Z.of_nat i) * mock_priceStep). split; [reflexivity|]. split.
      * assert (Hi : 0 <= inject_Z (Z.of_nat i))
          by (change 0 with (inject_Z 0); rewrite <- Zle_Qle; lia).
        unfold mock_priceStep. lra.
      * apply Qnot_lt_le. intro X. apply Qlt_bool_iff in X. congruence.
    + intro Hr. simpl.
      assert (Hf : (0 <= Qfloor (rnd n * 5000))%Z).
      { change 0%Z with (Qfloor 0). apply Qfloor_resp_le.
        apply Qmult_le_0_compat; [apply Hr | discriminate]. }
      rewrite Zle_Qle in Hf. change (inject_Z 0) with 0 in Hf.
      destruct (mock_vols_nonneg (inject_Z (Qfloor (rnd n * 5000)) + 500) (rnd (S n))
                  (rnd (S (S n))) (rnd (S (S (S n))))) as [V1 V2]; [lra | apply Hr | apply Hr|].
      rewrite Ev in V1, V2. simpl in V1, V2.
      split; apply js_round_nonneg; assumption.
  - apply (IH (S i) (S (S (S (S n))))). rewrite Er. exact H.
Qed.

Lemma generateBidAskLevels_props (rnd : nat -> Q) (n : nat) (o hi lo cl : Q) :
  let ls := fst (generateBidAskLevels rnd n o hi lo cl) in
  sorted_asc (map price ls) = true /\
  (forall l, In l ls ->
     (exists p, price l = js_round p /\ lo <= p /\ p <= hi) /\
     ((forall k, 0 <= rnd k) -> 0 <= bidVol l /\ 0 <= askVol l)).
Proof.
  unfold generateBidAskLevels.
  destruct (mock_levels rnd lo hi 0 n (Z.to_nat (js_ceil ((hi - lo) / mock_priceStep) + 1)))
    as [levels n'] eqn:E.
  simpl. split.
  - rewrite <- sorted_by_asc. apply sort_by_sorted. intros a b. apply Qlt_bool_asym.
  - intros l Hl. apply (Permutation_in _ (sort_by_perm _ levels)) in Hl.
    apply (mock_levels_members rnd lo hi (Z.to_nat (js_ceil ((hi - lo) / mock_priceStep) + 1)) 0 n).
    rewrite E. exact Hl.
Qed.

Lemma generateCandle_props (rnd : nat -> Q) (n : nat) (ts : Z) (pc : Q) :
  let c := fst (generateCandle rnd n ts pc) in
  timestamp c = ts /\ open c = js_round pc /\ is_int (close c) /\
  sorted_asc (map price (bidAskData c)) = true /\
  Forall (fun l => in_candle_range c l = true) (bidAskData c) /\
  ((forall k, 0 <= rnd k) ->
   ohlc_ok c /\ levels_nonneg (bidAskData c) /\
   -100 <= relativeStrength c /\ relativeStrength c <= 100).
Proof.
  intro c. unfold c, generateCandle. cbv zeta.
  set (cl := pc + (rnd n - (1 # 2)) * 1000).
  set (vol := 200 + rnd (S n) * 300).
  set (hi := Qmax pc cl + vol). set (lo := Qmin pc cl - vol).
  pose proof (generateBidAskLevels_props rnd (S (S n)) pc hi lo cl) as [Gs Gm].
  destruct (generateBidAskLevels rnd (S (S n)) pc hi lo cl) as [levels n'] eqn:E.
  simpl in Gs, Gm |- *.
  split; [reflexivity|]. split; [reflexivity|]. split; [apply js_round_is_int|].
  split; [exact Gs|]. split.
  - apply Forall_forall. intros l Hl. destruct (Gm l Hl) as [[p [Hp [H1 H2]]] _].
    unfold in_candle_range. simpl. rewrite Hp.
    apply andb_true_intro; split; apply Qle_bool_iff; apply js_round_le; assumption.
  - intro Hr.
    assert (Hv : 0 <= vol) by (unfold vol; pose proof (Hr (S n)); lra).
    pose proof (Q.le_min_l pc cl). pose proof (Q.le_min_r pc cl).
    pose proof (Q.le_max_l pc cl). pose proof (Q.le_max_r pc cl).
    split.
    + unfold ohlc_ok. simpl. unfold hi, lo.
      repeat split; apply js_round_le; lra.
    + assert (Nn : levels_nonneg levels).
      { apply Forall_forall. intros l Hl. destruct (Gm l Hl) as [_ X]. exact (X Hr). }
      split; [exact Nn|]. destruct (levels_nonneg_sums _ Nn) as [S1 S2].
      exact (rs_of_sums _ _ S1 S2).
Qed.

Lemma mock_history_Forall (rnd : nat -> Q) (now intervalMs : Z) (P : OrderFlowCandle -> Prop) :
  (forall c x, P c -> P (with_cvd c x)) ->
  (forall n ts pc, P (fst (generateCandle rnd n ts pc))) ->
  forall k n pc cum, Forall P (mock_history rnd now intervalMs k n pc cum).
Proof.
  intros Hw Hg. induction k as [|k IH]; intros n pc cum; simpl; [constructor|].
  pose proof (Hg n (now - Z.of_nat k * intervalMs)%Z pc) as G.
  destruct (generateCandle rnd n (now - Z.of_nat k * intervalMs)%Z pc) as [c n'].
  simpl in G. constructor; [apply Hw; exact G | apply IH].
Qed.

Lemma mock_history_shape (rnd : nat -> Q) (now intervalMs : Z) (k : nat) :
  forall n pc cum, is_int pc ->
  let h := mock_history rnd now intervalMs k n pc cum in
  List.length h = k /\
  map timestamp h = map (fun j => (now - Z.of_nat j * intervalMs)%Z) (rev (seq 0 k)) /\
  opens_follow pc h.
Proof.
  induction k as [|k IH]; intros n pc cum Hp h; [repeat split|].
  unfold h. rewrite seq_S, rev_app_distr. simpl.
  pose proof (generateCandle_props rnd n (now - Z.of_nat k * intervalMs)%Z pc) as [Gt [Go [Gc _]]].
  destruct (generateCandle rnd n (now - Z.of_nat k * intervalMs)%Z pc) as [c n'].
  simpl in Gt, Go, Gc |- *.
  destruct (IH n' (close c) (cum + delta c) Gc) as [L [M O]].
  split; [rewrite L; reflexivity|]. split; [rewrite Gt, M; reflexivity|].
  split; [rewrite Go; apply js_round_int; exact Hp | exact O].
Qed.

Lemma mock_times_increasing (now intervalMs : Z) (k : nat) :
  (0 < intervalMs)%Z ->
  increasing (map (fun j => (now - Z.of_nat j * intervalMs)%Z) (rev (seq 0 k))) = true.
Proof.
  intro HI. induction k as [|k IH]; [reflexivity|].
  rewrite seq_S, rev_app_distr. simpl. apply increasing_cons; [exact IH|].
  apply Forall_forall. intros z Hz. apply in_map_iff in Hz as [j [<- Hj]].
  apply in_rev, in_seq in Hj. nia.
Qed.

Lemma mock_getTimeframeMs_pos (tf : Timeframe) : (0 < mock_getTimeframeMs tf)%Z.
Proof. destruct tf; reflexivity. Qed.

(** X14: [generateHistoricalData(timeframe, barsCount)] returns
    [barsCount] candles stamped [now - i * intervalMs] for
    [i = barsCount - 1, ..., 0] (so strictly increasing and the last one at
    [now]), the first one opening at the base price 105000 and each next one
    opening at the close of the one before. *)
Theorem generateHistoricalData_series (rnd : nat -> Q) (now : Z) (tf : Timeframe)
    (barsCount : nat) :
  let h := generateHistoricalData rnd now tf barsCount in
  List.length h = barsCount /\
  map timestamp h
  = map (fun j => (now - Z.of_nat j * mock_getTimeframeMs tf)%Z) (rev (seq 0 barsCount)) /\
  increasing (map timestamp h) = true /\
  opens_follow mock_basePrice h.
Proof.
  intro h.
  assert (Hb : is_int mock_basePrice) by (exists 105000%Z; reflexivity).
  destruct (mock_history_shape rnd now (mock_getTimeframeMs tf) barsCount 0 mock_basePrice 0 Hb)
    as [L [M O]].
  split; [exact L|]. split; [exact M|]. split; [|exact O].
  unfold h, generateHistoricalData. rewrite M.
  apply mock_times_increasing. apply mock_getTimeframeMs_pos.
Qed.

(** X15: in every mock candle the levels are sorted by ascending price and
    every level's price lies within the candle's [low, high]. *)
Theorem generateHistoricalData_levels (rnd : nat -> Q) (now : Z) (tf : Timeframe)
    (barsCount : nat) :
  Forall (fun c => sorted_asc (map price (bidAskData c)) = true /\
                   Forall (fun l => in_candle_range c l = true) (bidAskData c))
    (generateHistoricalData rnd now tf barsCount).
Proof.
  apply mock_history_Forall.
  - intros c x H. exact H.
  - intros n ts pc. destruct (generateCandle_props rnd n ts pc) as [_ [_ [_ [S [F _]]]]].
    split; assumption.
Qed.

(** X16: when [Math.random()] returns non-negative numbers, every mock
    candle has [low <= open, close <= high], non-negative level volumes, and
    a relative strength between -100 and 100. *)
Theorem generateHistoricalData_bars_ok (rnd : nat -> Q) (now : Z) (tf : Timeframe)
    (barsCount : nat) :
  (forall k, 0 <= rnd k) ->
  Forall (fun c => ohlc_ok c /\ levels_nonneg (bidAskData c) /\
                   -100 <= relativeStrength c /\ relativeStrength c <= 100)
    (generateHistoricalData rnd now tf barsCount).
Proof.
  intro Hr. apply mock_history_Forall.
  - intros c x H. exact H.
  - intros n ts pc. destruct (generateCandle_props rnd n ts pc) as [_ [_ [_ [_ [_ G]]]]].
    exact (G Hr).
Qed.

Lemma generateHistoricalData_bars_ok_witness :
  Forall (fun c => ohlc_ok c /\ levels_nonneg (bidAskData c) /\
                   -100 <= relativeStrength c /\ relativeStrength c <= 100)
    (generateHistoricalData (fun _ => 1 # 2) 0 TF5m 2).
Proof.
  apply (generateHistoricalData_bars_ok (fun _ => 1 # 2) 0 TF5m 2).
  intro k. discriminate.
Defined.
